(** * absa-ac status bot: the poll / aggregate / render / publish cycle

    A shallow embedding of [bot.py].  Python dicts with string keys are
    [gmap string _]; Python values whose type is only known at run time
    (the fields of the decoded JSON body) are [pyval]; code that can raise
    returns an [outcome]; the one global, [server_message], and the calls
    made on the chat platform are threaded through [bot_state].

    The cycle as a whole is followed for bodies whose numbers are whole
    ([pyval]); the loop that groups and totals is followed a second
    time for counts of either kind, [int] or [float] ([aggregate_num]),
    and the first is shown to be the second on whole counts. *)

From Stdlib Require Import Ascii String.
From Stdlib Require Import PrimFloat SpecFloat FloatOps.
From stdpp Require Import gmap strings list fin_maps pretty.

Open Scope string_scope.
Open Scope list_scope.
Open Scope Z_scope.

(** ** Exceptions and results *)

(** The exceptions the cycle can meet.  [NotFound] is [discord.NotFound];
    [OtherError] stands for every exception class the source does not
    name (connection errors, timeouts, decode errors, other platform
    errors), told apart by a label. *)
Inductive exn :=
| AttributeError
| TypeError
| KeyError (key : string)
| NotFound
| OtherError (label : string).

Inductive outcome (A : Type) :=
| Ok (a : A)
| Raise (e : exn).
Arguments Ok {A} a.
Arguments Raise {A} e.

Global Instance outcome_bind : MBind outcome := λ A B k m,
  match m with
  | Ok a => k a
  | Raise e => Raise e
  end.
Global Instance outcome_ret : MRet outcome := λ A a, Ok a.

(** [try: body / except: handler], the bare [except] of Python. *)
Definition try_except {A} (body handler : outcome A) : outcome A :=
  match body with
  | Ok a => Ok a
  | Raise _ => handler
  end.

(** A [for] loop whose body may raise, over an accumulator. *)
Fixpoint foldM {A S} (f : S → A → outcome S) (s : S) (l : list A) : outcome S :=
  match l with
  | [] => Ok s
  | x :: l' => s' ← f s x; foldM f s' l'
  end.

(** ** Python values *)

(** A value found under a key of the decoded JSON body.  JSON numbers are
    whole numbers here (the endpoints report counts); a number with a
    fraction or an exponent, which Python decodes to a float, is not a
    [pyval]: the loop of [build_embed] over such counts is
    [aggregate_num] below, over [count].  A nested array or object is
    kept as [PCompound], carrying the text [str()] gives for it: the code
    only ever formats, compares or adds these values. *)
Inductive pyval :=
| PNone
| PBool (b : bool)
| PInt (z : Z)
| PStr (s : string)
| PCompound (shown : string).

(** What [response.json()] returned: a dict, or any other JSON value. *)
Inductive pyjson :=
| JDict (items : gmap string pyval)
| JNotDict.

(** [f"{v}"]. *)
Definition py_str (v : pyval) : string :=
  match v with
  | PNone => "None"
  | PBool true => "True"
  | PBool false => "False"
  | PInt z => pretty z
  | PStr s => s
  | PCompound shown => shown
  end.

(** The number a value stands for in [v > 0], [v >= 0] and [t += v];
    [bool] is a subclass of [int]; every other type raises [TypeError]
    when compared with an [int]. *)
Definition py_num (v : pyval) : outcome Z :=
  match v with
  | PInt z => Ok z
  | PBool b => Ok (if b then 1 else 0)
  | _ => Raise TypeError
  end.

(** [data.get(key, default)]; raises [AttributeError] unless [data] is a dict. *)
Definition py_get (data : pyjson) (key : string) (dflt : pyval) : outcome pyval :=
  match data with
  | JDict items => Ok (default dflt (items !! key))
  | JNotDict => Raise AttributeError
  end.

(** ** [os.path.basename] (posixpath): [i = p.rfind('/') + 1; return p[i:]] *)

(** Index of the last occurrence of [c] in [p], or [-1]. *)
Fixpoint rfind (c : Ascii.ascii) (p : string) : Z :=
  match p with
  | EmptyString => -1
  | String a rest =>
      let r := rfind c rest in
      if 0 <=? r then r + 1
      else if Ascii.eqb a c then 0 else -1
  end.

(** [p[i:]] for [0 <= i]. *)
Fixpoint string_from (i : nat) (p : string) : string :=
  match i, p with
  | O, _ => p
  | S i', String _ rest => string_from i' rest
  | S _, EmptyString => EmptyString
  end.

Definition posix_basename (p : string) : string :=
  let i := rfind "/"%char p + 1 in
  string_from (Z.to_nat i) p.

(** [os.path.basename(v)]: [os.fspath] refuses anything but a [str]. *)
Definition basename (v : pyval) : outcome string :=
  match v with
  | PStr p => Ok (posix_basename p)
  | _ => Raise TypeError
  end.

(** ** Configuration *)

(** An entry of [SERVERS]. *)
Record server := {
  name : string;
  ip : string;
  port : Z;
  category : string;
}.

Definition CATEGORY_ORDER : list string := ["Drift"; "Touge"; "Track"].

Definition UPDATE_INTERVAL : Z := 30.

(** [SERVERS], for the host read from the environment. *)
Definition SERVERS (SERVER_IP : string) : list server := [
  {| name := "ABSA Drift#1 | Rotating Maps | BDC 4.0";
     ip := SERVER_IP; port := 8081; category := "Drift" |};
  {| name := "ABSA Drift#2 | Rotating Maps | Gravy Garage";
     ip := SERVER_IP; port := 8082; category := "Drift" |};
  {| name := "ABSA Drift#3 | Rotating Maps | SWARM 3.2";
     ip := SERVER_IP; port := 8083; category := "Drift" |};
  {| name := "ABSA Drift#4 | Rotating Maps | SWARM 3.2";
     ip := SERVER_IP; port := 8084; category := "Drift" |};
  {| name := "ABSA Drift#8 | Rotating Maps | SWARM 3.2 Touge";
     ip := SERVER_IP; port := 8088; category := "Drift" |};
  {| name := "ABSA Race#6 | Touge FAST Lap";
     ip := SERVER_IP; port := 8086; category := "Touge" |};
  {| name := "ABSA Race#5 | Nordschleife Tourist FAST Lap";
     ip := SERVER_IP; port := 8085; category := "Track" |};
  {| name := "ABSA GoKart#7 | Rotating Maps |";
     ip := SERVER_IP; port := 8087; category := "Track" |};
  {| name := "ABSA SRP#9 | SRP Traffic|";
     ip := SERVER_IP; port := 8089; category := "Track" |};
  {| name := "ABSA SRP#10 | SRP Traffic|";
     ip := SERVER_IP; port := 8090; category := "Track" |}
].

(** ** The probe: [get_server_info] *)

(** What one [GET] does in a cycle: [session.get] raises (connection
    error, or the 2 second timeout), or a response arrives, with its HTTP
    status and with what [await response.json()] does on its body. *)
Inductive http_outcome :=
| NoResponse (e : exn)
| Response (status : Z) (json : outcome pyjson).

(** The network during one cycle, by URL. *)
Definition network := string → http_outcome.

(** The dict a probe returns. *)
Record info := {
  info_name : string;
  info_category : string;
  info_map : string;
  info_players : string;
  info_num_players : pyval;
  info_ip : string;
  info_port : Z;
}.

Definition info_url (s : server) : string :=
  "http://" +:+ ip s +:+ ":" +:+ pretty (port s) +:+ "/info".

(** The body of the [try]. *)
Definition probe_body (net : network) (s : server) : outcome info :=
  let url := info_url s in
  match net url with
  | NoResponse e => Raise e
  | Response _ json =>
      data ← json;
      num_players ← py_get data "clients" (PInt 0);
      max_players ← py_get data "maxclients" (PInt 0);
      track ← py_get data "track" (PStr "Unknown");
      track_name ← basename track;
      Ok {| info_name := name s;
            info_category := category s;
            info_map := track_name;
            info_players := py_str num_players +:+ "/" +:+ py_str max_players;
            info_num_players := num_players;
            info_ip := ip s;
            info_port := port s |}
  end.

(** The dict of the [except] branch. *)
Definition offline (s : server) : info :=
  {| info_name := name s;
     info_category := category s;
     info_map := "Offline";
     info_players := "0/0";
     info_num_players := PInt (-1);
     info_ip := ip s;
     info_port := port s |}.

Definition get_server_info (net : network) (s : server) : outcome info :=
  try_except (probe_body net s) (Ok (offline s)).

(** The list [asyncio.gather] returns for the probes of [servers]: one
    result per server, in the order of [servers]. *)
Definition server_infos (net : network) (servers : list server) : outcome (list info) :=
  mapM (get_server_info net) servers.

(** [asyncio.gather] itself: the awaitable at position [k] stores its
    result in slot [k] when it completes; once no slot is empty the slots
    are returned.  [results] are the values the awaitables produce, by
    position, and [completion] is the order in which they complete. *)
Definition gather_store {A} (results : list A) (slots : list (option A)) (k : nat)
    : list (option A) :=
  match results !! k with
  | Some r => <[k := Some r]> slots
  | None => slots
  end.

Definition gather {A} (results : list A) (completion : list nat) : option (list A) :=
  mapM id (foldl (gather_store results) (replicate (length results) None) completion).

(** ** Grouping and totals: the first loop of [build_embed] *)

Record snapshot := {
  grouped : gmap string (list info);
  category_totals : gmap string Z;
  total_players : Z;
}.

Definition empty_snapshot : snapshot :=
  {| grouped := list_to_map ((λ cat, (cat, [])) <$> CATEGORY_ORDER);
     category_totals := list_to_map ((λ cat, (cat, 0)) <$> CATEGORY_ORDER);
     total_players := 0 |}.

(** [d[key]]. *)
Definition py_index {V} (d : gmap string V) (key : string) : outcome V :=
  match d !! key with
  | Some v => Ok v
  | None => Raise (KeyError key)
  end.

(** One turn of [for info in server_infos]. *)
Definition aggregate_step (acc : snapshot) (i : info) : outcome snapshot :=
  let cat := info_category i in
  let grouped' := <[cat := default [] (grouped acc !! cat) ++ [i]]> (grouped acc) in
  n ← py_num (info_num_players i);
  if 0 <? n then
    t ← py_index (category_totals acc) cat;
    Ok {| grouped := grouped';
          category_totals := <[cat := t + n]> (category_totals acc);
          total_players := total_players acc + n |}
  else
    Ok {| grouped := grouped';
          category_totals := category_totals acc;
          total_players := total_players acc |}.

Definition aggregate (infos : list info) : outcome snapshot :=
  foldM aggregate_step empty_snapshot infos.

(** ** Rendering: the embed *)

Record field := {
  field_name : string;
  field_value : string;
  field_inline : bool;
}.

Record embed := {
  embed_title : string;
  embed_description : string;
  embed_color : string;
  embed_thumbnail : string;
  embed_fields : list field;
  embed_image : string;
  embed_footer : string;
}.

Definition CATEGORY_EMOJIS : gmap string string :=
  {[ "Drift" := "🟣"; "Touge" := "🟠"; "Track" := "🔵" ]}.

(** The line feed, and the zero width space U+200B (UTF-8: E2 80 8B). *)
Definition newline : string := String (ascii_of_nat 10) EmptyString.
Definition zero_width_space : string :=
  String (ascii_of_nat 226) (String (ascii_of_nat 128) (String (ascii_of_nat 139) EmptyString)).

Definition online_marker : string := "🟢".
Definition offline_marker : string := "🔴".

Definition header_field (cat : string) (totals : gmap string Z) : field :=
  let emoji := default "📁" (CATEGORY_EMOJIS !! cat) in
  let total := default 0 (totals !! cat) in
  {| field_name := emoji +:+ " **" +:+ cat +:+ " Servers — " +:+ pretty total +:+ " players**";
     field_value := zero_width_space;
     field_inline := false |}.

Definition join_url (i : info) : string :=
  "https://acstuff.club/s/q:race/online/join?ip=" +:+ info_ip i
    +:+ "&httpPort=" +:+ pretty (info_port i).

Definition server_field (i : info) : outcome field :=
  n ← py_num (info_num_players i);
  let status_emoji := if 0 <=? n then online_marker else offline_marker in
  Ok {| field_name := status_emoji +:+ " " +:+ info_name i;
        field_value := "**Map:** " +:+ info_map i +:+ newline
                       +:+ "**Players:** " +:+ info_players i +:+ newline
                       +:+ "[Join Server](" +:+ join_url i +:+ ")";
        field_inline := false |}.

Definition spacing_field : field :=
  {| field_name := zero_width_space; field_value := zero_width_space; field_inline := false |}.

(** An [int] inside an f-string: CPython (3.11 and later, with its
    default [int_max_str_digits]) refuses to write an [int] of more than
    4300 digits and raises [ValueError]. *)
Definition int_max_str_digits : Z := 4300.

Definition format_int (z : Z) : outcome string :=
  if Z.abs z <? 10 ^ int_max_str_digits then Ok (pretty z)
  else Raise (OtherError "ValueError").
Arguments format_int : simpl never.

(** The fields one turn of [for category in CATEGORY_ORDER] adds: the
    header, whose f-string writes the total of the category (the text
    [header_field] holds once that has succeeded), the entries, the
    spacer. *)
Definition category_fields (snap : snapshot) (cat : string) : outcome (list field) :=
  _ ← format_int (default 0 (category_totals snap !! cat));
  entries ← mapM server_field (default [] (grouped snap !! cat));
  Ok (header_field cat (category_totals snap) :: entries ++ [spacing_field]).

Definition render (SERVER_IP : string) (snap : snapshot) : outcome embed :=
  total ← format_int (total_players snap);
  sections ← mapM (category_fields snap) CATEGORY_ORDER;
  Ok {| embed_title := "ABSA Official Servers";
        embed_description := "👥 **Total Players:** " +:+ total;
        embed_color := "green";
        embed_thumbnail := "https://upload.wikimedia.org/wikipedia/commons/thumb/d/d9/Flag_of_Norway.svg/320px-Flag_of_Norway.svg.png";
        embed_fields := concat sections;
        embed_image := "http://" +:+ SERVER_IP +:+ "/images/logo.png";
        embed_footer := "Updates every " +:+ pretty UPDATE_INTERVAL +:+ " seconds" |}.

Definition build_embed (SERVER_IP : string) (servers : list server) (net : network)
    : outcome embed :=
  infos ← server_infos net servers;
  snap ← aggregate infos;
  render SERVER_IP snap.

(** ** The chat platform and the bot's state *)

Definition message := nat.
Definition channel := nat.

(** What the bot does to the outside during a cycle: calls on the
    platform (whether they succeed or raise) and log lines. *)
Inductive event :=
| Send (ch : channel) (e : embed)
| Edit (m : message) (e : embed)
| LogError (line : string)
| LogInfo (line : string).

(** The platform as the cycle sees it: a channel cache, and for each call
    what it answers, which may depend on everything done so far. *)
Record discord := {
  get_channel : Z → option channel;
  on_send : list event → channel → embed → outcome message;
  on_edit : list event → message → embed → outcome unit;
}.

(** The global [server_message], and the events so far. *)
Record bot_state := {
  server_message : option message;
  events : list event;
}.

(** Code that reads and writes the state and may raise. *)
Definition cmd (A : Type) : Type := bot_state → outcome A * bot_state.

Global Instance cmd_ret : MRet cmd := λ A a st, (Ok a, st).
Global Instance cmd_bind : MBind cmd := λ A B k m st,
  match m st with
  | (Ok a, st') => k a st'
  | (Raise e, st') => (Raise e, st')
  end.

Definition lift {A} (r : outcome A) : cmd A := λ st, (r, st).

Definition emit (ev : event) : cmd unit := λ st,
  (Ok (), {| server_message := server_message st; events := events st ++ [ev] |}).

Definition read_server_message : cmd (option message) := λ st,
  (Ok (server_message st), st).

Definition write_server_message (m : message) : cmd unit := λ st,
  (Ok (), {| server_message := Some m; events := events st |}).

(** [await channel.send(embed=embed)]. *)
Definition channel_send (api : discord) (ch : channel) (e : embed) : cmd message := λ st,
  (on_send api (events st) ch e,
   {| server_message := server_message st; events := events st ++ [Send ch e] |}).

(** [await server_message.edit(embed=embed)]. *)
Definition message_edit (api : discord) (m : message) (e : embed) : cmd unit := λ st,
  (on_edit api (events st) m e,
   {| server_message := server_message st; events := events st ++ [Edit m e] |}).

(** [try: body / except discord.NotFound: handler]. *)
Definition except_NotFound {A} (body handler : cmd A) : cmd A := λ st,
  match body st with
  | (Raise NotFound, st') => handler st'
  | r => r
  end.

(** ** One cycle: [update_servers] *)

Record config := {
  CHANNEL_ID : Z;
  SERVER_IP : string;
  servers : list server;
}.

Definition update_servers (cfg : config) (api : discord) (net : network) : cmd unit :=
  match get_channel api (CHANNEL_ID cfg) with
  | None => emit (LogError ("Channel ID " +:+ pretty (CHANNEL_ID cfg) +:+ " not found"))
  | Some ch =>
      e ← lift (build_embed (SERVER_IP cfg) (servers cfg) net);
      except_NotFound
        (current ← read_server_message;
         match current with
         | None =>
             m ← channel_send api ch e;
             write_server_message m;;
             emit (LogInfo "Initial status message posted")
         | Some m =>
             message_edit api m e;;
             emit (LogInfo "Status message updated")
         end)
        (m ← channel_send api ch e;
         write_server_message m;;
         emit (LogInfo "Status message recreated (previous message was deleted)"))
  end.

(** ** What the statements below talk about *)

(** The probe failed: the body of the [try] raised. *)
Definition probe_failed (net : network) (s : server) : Prop :=
  ∃ e, probe_body net s = Raise e.

(** The causes for which the body of the [try] raises. *)
Inductive probe_failure (net : network) (s : server) : Prop :=
| failure_no_response e :
    net (info_url s) = NoResponse e → probe_failure net s
| failure_decode status e :
    net (info_url s) = Response status (Raise e) → probe_failure net s
| failure_not_object status :
    net (info_url s) = Response status (Ok JNotDict) → probe_failure net s
| failure_track status items v :
    net (info_url s) = Response status (Ok (JDict items)) →
    items !! "track" = Some v → (∀ p, v ≠ PStr p) → probe_failure net s.

(** A status of a server that answered: a count of at least 0 and a map
    other than the sentinel's. *)
Definition answered_shape (i : info) : Prop :=
  (∃ n, info_num_players i = PInt n ∧ 0 ≤ n) ∧ info_map i ≠ "Offline".

(** [b] is the final component of the path [p]: what follows the last
    slash, or all of [p] when it has none. *)
Definition final_component (p b : string) : Prop :=
  ¬ In "/"%char (list_ascii_of_string b) ∧
  (p = b ∨ ∃ dir, p = dir +:+ "/" +:+ b).

(** [grouped.get(cat, [])] and [category_totals.get(cat, 0)]. *)
Definition group_of (snap : snapshot) (cat : string) : list info :=
  default [] (grouped snap !! cat).
Definition total_of (snap : snapshot) (cat : string) : Z :=
  default 0 (category_totals snap !! cat).

(** The count of a status as a number (0 where it is not a number). *)
Definition players (i : info) : Z :=
  match py_num (info_num_players i) with
  | Ok n => n
  | Raise _ => 0
  end.

Definition numeric (i : info) : Prop :=
  ∃ n, py_num (info_num_players i) = Ok n.

Definition sumZ (l : list Z) : Z := foldr Z.add 0 l.

(** The sum of the counts of the statuses of [l] whose count is above 0. *)
Definition online_players (l : list info) : Z :=
  sumZ (players <$> filter (λ i, 0 < players i) l).

Definition in_category (cat : string) (i : info) : Prop := info_category i = cat.
Global Instance in_category_dec cat i : Decision (in_category cat i) :=
  decide (info_category i = cat).

(** The calls made on the platform among some events. *)
Definition is_call (ev : event) : bool :=
  match ev with
  | Send _ _ | Edit _ _ => true
  | LogError _ | LogInfo _ => false
  end.

Definition calls (evs : list event) : list event := List.filter is_call evs.

(** ** Sample inputs *)

Definition sample_server : server :=
  {| name := "ABSA Drift#1 | Rotating Maps | BDC 4.0";
     ip := "10.0.0.1"; port := 8081; category := "Drift" |}.

Definition body_of (fields : list (string * pyval)) : outcome pyjson :=
  Ok (JDict (list_to_map fields)).

(** Every endpoint answers 200 with 5 of 20 players on spa. *)
Definition net_spa : network := λ _,
  Response 200 (body_of [("clients", PInt 5); ("maxclients", PInt 20);
                         ("track", PStr "content/tracks/spa")]).

(** Every endpoint answers 200 with [{"clients": -1}]. *)
Definition net_minus_one : network := λ _,
  Response 200 (body_of [("clients", PInt (-1))]).

(** Every endpoint answers 503 with a JSON object in the body. *)
Definition net_503 : network := λ _,
  Response 503 (body_of [("clients", PInt 3); ("maxclients", PInt 20);
                         ("track", PStr "content/tracks/spa")]).

(** Four servers, and a cycle in which the first has 5 players, the
    second is empty, the third does not answer and the fourth has 3. *)
Definition sample_servers : list server :=
  [ {| name := "Drift#1"; ip := "10.0.0.1"; port := 8081; category := "Drift" |};
    {| name := "Race#6"; ip := "10.0.0.1"; port := 8086; category := "Touge" |};
    {| name := "Race#5"; ip := "10.0.0.1"; port := 8085; category := "Track" |};
    {| name := "Drift#2"; ip := "10.0.0.1"; port := 8082; category := "Drift" |} ].

Definition sample_net : network := λ url,
  if String.eqb url "http://10.0.0.1:8081/info" then
    Response 200 (body_of [("clients", PInt 5); ("maxclients", PInt 20);
                           ("track", PStr "content/tracks/spa")])
  else if String.eqb url "http://10.0.0.1:8086/info" then
    Response 200 (body_of [("clients", PInt 0); ("maxclients", PInt 12);
                           ("track", PStr "akina")])
  else if String.eqb url "http://10.0.0.1:8082/info" then
    Response 200 (body_of [("clients", PInt 3); ("maxclients", PInt 20);
                           ("track", PStr "/ebisu")])
  else NoResponse (OtherError "TimeoutError").

Definition sample_status (nm cat mp ratio : string) (n prt : Z) : info :=
  {| info_name := nm; info_category := cat; info_map := mp; info_players := ratio;
     info_num_players := PInt n; info_ip := "10.0.0.1"; info_port := prt |}.

Definition sample_infos : list info :=
  [ sample_status "Drift#1" "Drift" "spa" "5/20" 5 8081;
    sample_status "Race#6" "Touge" "akina" "0/12" 0 8086;
    sample_status "Race#5" "Track" "Offline" "0/0" (-1) 8085;
    sample_status "Drift#2" "Drift" "ebisu" "3/20" 3 8082 ].

(** The snapshot the loop builds from them. *)
Definition sample_snapshot : snapshot :=
  {| grouped :=
       {[ "Drift" := [ sample_status "Drift#1" "Drift" "spa" "5/20" 5 8081;
                       sample_status "Drift#2" "Drift" "ebisu" "3/20" 3 8082 ];
          "Touge" := [ sample_status "Race#6" "Touge" "akina" "0/12" 0 8086 ];
          "Track" := [ sample_status "Race#5" "Track" "Offline" "0/0" (-1) 8085 ] ]};
     category_totals := {[ "Drift" := 8; "Touge" := 0; "Track" := 0 ]};
     total_players := 8 |}.

(** The embed rendered from it. *)
Definition sample_header (title : string) : field :=
  {| field_name := title; field_value := zero_width_space; field_inline := false |}.

Definition sample_entry (marker nm mp ratio : string) (prt : Z) : field :=
  {| field_name := marker +:+ " " +:+ nm;
     field_value := "**Map:** " +:+ mp +:+ newline
                    +:+ "**Players:** " +:+ ratio +:+ newline
                    +:+ "[Join Server](https://acstuff.club/s/q:race/online/join?ip=10.0.0.1&httpPort="
                    +:+ pretty prt +:+ ")";
     field_inline := false |}.

Definition sample_embed : embed :=
  {| embed_title := "ABSA Official Servers";
     embed_description := "👥 **Total Players:** 8";
     embed_color := "green";
     embed_thumbnail := "https://upload.wikimedia.org/wikipedia/commons/thumb/d/d9/Flag_of_Norway.svg/320px-Flag_of_Norway.svg.png";
     embed_fields :=
       [ sample_header "🟣 **Drift Servers — 8 players**";
         sample_entry "🟢" "Drift#1" "spa" "5/20" 8081;
         sample_entry "🟢" "Drift#2" "ebisu" "3/20" 8082;
         spacing_field;
         sample_header "🟠 **Touge Servers — 0 players**";
         sample_entry "🟢" "Race#6" "akina" "0/12" 8086;
         spacing_field;
         sample_header "🔵 **Track Servers — 0 players**";
         sample_entry "🔴" "Race#5" "Offline" "0/0" 8085;
         spacing_field ];
     embed_image := "http://10.0.0.1/images/logo.png";
     embed_footer := "Updates every 30 seconds" |}.

(** A server of a category that is not in [CATEGORY_ORDER]. *)
Definition rally_server : server :=
  {| name := "Rally#1"; ip := "10.0.0.1"; port := 8091; category := "Rally" |}.

(** The status of a server that answers as in [net_spa]. *)
Definition spa_status (s : server) : info :=
  {| info_name := name s; info_category := category s; info_map := "spa";
     info_players := "5/20"; info_num_players := PInt 5;
     info_ip := ip s; info_port := port s |}.

(** A configuration, and three behaviours of the platform: every call
    succeeds; the stored message was deleted, so that editing it reports
    not found; the channel cannot be resolved. *)
Definition sample_config : config :=
  {| CHANNEL_ID := 1234; SERVER_IP := "10.0.0.1"; servers := sample_servers |}.

Definition api_healthy : discord :=
  {| get_channel := λ _, Some 7%nat;
     on_send := λ _ _ _, Ok 42%nat;
     on_edit := λ _ _ _, Ok () |}.

Definition api_deleted : discord :=
  {| get_channel := λ _, Some 7%nat;
     on_send := λ _ _ _, Ok 43%nat;
     on_edit := λ _ _ _, Raise NotFound |}.

Definition api_forbidden : discord :=
  {| get_channel := λ _, Some 7%nat;
     on_send := λ _ _ _, Ok 43%nat;
     on_edit := λ _ _ _, Raise (OtherError "Forbidden") |}.

Definition api_no_channel : discord :=
  {| get_channel := λ _, None;
     on_send := λ _ _ _, Ok 42%nat;
     on_edit := λ _ _ _, Ok () |}.

Definition initial_state : bot_state := {| server_message := None; events := [] |}.

(** No endpoint answers in time. *)
Definition net_down : network := λ _, NoResponse (OtherError "TimeoutError").

(** ** The document as a function of the statuses *)

(** The entry [build_embed] adds for a status whose count is a number. *)
Definition entry_of (i : info) : field :=
  {| field_name := (if 0 <=? players i then online_marker else offline_marker)
                   +:+ " " +:+ info_name i;
     field_value := "**Map:** " +:+ info_map i +:+ newline
                    +:+ "**Players:** " +:+ info_players i +:+ newline
                    +:+ "[Join Server](" +:+ join_url i +:+ ")";
     field_inline := false |}.

(** The fields of one category: header, entries, spacer. *)
Definition section_of (infos : list info) (totals : gmap string Z) (cat : string)
    : list field :=
  header_field cat totals :: (entry_of <$> filter (in_category cat) infos)
    ++ [spacing_field].

(** The status has a total to be counted under: its count is not above
    0, or its category is one of [CATEGORY_ORDER]. *)
Definition has_total (i : info) : Prop :=
  0 < players i → info_category i ∈ CATEGORY_ORDER.

(** ** Cycles that follow one another *)

(** [update_servers] called once per element of [envs], each time with
    the platform and the network of that cycle, up to the first call
    that raises. *)
Fixpoint run_cycles (cfg : config) (envs : list (discord * network)) : cmd unit :=
  match envs with
  | [] => mret ()
  | (api, net) :: rest => update_servers cfg api net;; run_cycles cfg rest
  end.

(** The events a cycle added to those of [st]. *)
Definition new_events (st st' : bot_state) : list event :=
  drop (length (events st)) (events st').

(** ** The ways through one cycle *)

(** The call a cycle makes first, what the platform answers to it (the
    handle to keep, when it succeeds) and the line logged after it. *)
Definition first_call (st : bot_state) (ch : channel) (e : embed) : event :=
  match server_message st with
  | None => Send ch e
  | Some m => Edit m e
  end.

Definition first_answer (api : discord) (st : bot_state) (ch : channel) (e : embed)
    : outcome message :=
  match server_message st with
  | None => on_send api (events st) ch e
  | Some m => _ ← on_edit api (events st) m e; Ok m
  end.

Definition first_log (st : bot_state) : string :=
  match server_message st with
  | None => "Initial status message posted"
  | Some _ => "Status message updated"
  end.

(** The six ways through [update_servers], each with its result and the
    state it leaves. *)
Inductive cycle (cfg : config) (api : discord) (net : network) (st : bot_state)
    : outcome unit * bot_state → Prop :=
| cycle_no_channel :
    get_channel api (CHANNEL_ID cfg) = None →
    cycle cfg api net st
      (Ok (), {| server_message := server_message st;
                 events := events st ++
                   [LogError ("Channel ID " +:+ pretty (CHANNEL_ID cfg) +:+ " not found")] |})
| cycle_no_document ch err :
    get_channel api (CHANNEL_ID cfg) = Some ch →
    build_embed (SERVER_IP cfg) (servers cfg) net = Raise err →
    cycle cfg api net st (Raise err, st)
| cycle_published ch e m :
    get_channel api (CHANNEL_ID cfg) = Some ch →
    build_embed (SERVER_IP cfg) (servers cfg) net = Ok e →
    first_answer api st ch e = Ok m →
    cycle cfg api net st
      (Ok (), {| server_message := Some m;
                 events := events st ++ [first_call st ch e; LogInfo (first_log st)] |})
| cycle_recreated ch e m :
    get_channel api (CHANNEL_ID cfg) = Some ch →
    build_embed (SERVER_IP cfg) (servers cfg) net = Ok e →
    first_answer api st ch e = Raise NotFound →
    on_send api (events st ++ [first_call st ch e]) ch e = Ok m →
    cycle cfg api net st
      (Ok (), {| server_message := Some m;
                 events := events st ++
                   [first_call st ch e; Send ch e;
                    LogInfo "Status message recreated (previous message was deleted)"] |})
| cycle_recreate_failed ch e err :
    get_channel api (CHANNEL_ID cfg) = Some ch →
    build_embed (SERVER_IP cfg) (servers cfg) net = Ok e →
    first_answer api st ch e = Raise NotFound →
    on_send api (events st ++ [first_call st ch e]) ch e = Raise err →
    cycle cfg api net st
      (Raise err, {| server_message := server_message st;
                     events := events st ++ [first_call st ch e; Send ch e] |})
| cycle_call_failed ch e err :
    get_channel api (CHANNEL_ID cfg) = Some ch →
    build_embed (SERVER_IP cfg) (servers cfg) net = Ok e →
    first_answer api st ch e = Raise err → err ≠ NotFound →
    cycle cfg api net st
      (Raise err, {| server_message := server_message st;
                     events := events st ++ [first_call st ch e] |}).

(** The log lines among some events. *)
Definition log_lines (evs : list event) : list event :=
  List.filter (λ ev, negb (is_call ev)) evs.

(** The join link of a configured server. *)
Definition configured_link (s : server) : string :=
  "https://acstuff.club/s/q:race/online/join?ip=" +:+ ip s
    +:+ "&httpPort=" +:+ pretty (port s).

(** ** Start-up: the module-level configuration *)

(** What stops the module before the bot runs: [int(None)], [int] of a
    text that is no integer, or one of the three [RuntimeError]s. *)
Inductive startup_error :=
| IntTypeError
| IntValueError (text : string)
| RuntimeError (msg : string).

Inductive startup (A : Type) :=
| Started (a : A)
| Aborted (e : startup_error).
Arguments Started {A} a.
Arguments Aborted {A} e.

Record settings := {
  DISCORD_TOKEN : string;
  bot_config : config;
}.

(** [not v] for a value of [os.getenv]: [None] and the empty text. *)
Definition py_not_str (v : option string) : bool :=
  match v with
  | None => true
  | Some text => String.eqb text EmptyString
  end.

Section startup.
  (** [int(text)] for a [str]: the integer it reads as, if any. *)
  Variable int_of_str : string → option Z.

(** [int(os.getenv(key))]. *)
Definition py_int (v : option string) : startup Z :=
  match v with
  | None => Aborted IntTypeError
  | Some text =>
      match int_of_str text with
      | Some z => Started z
      | None => Aborted (IntValueError text)
      end
  end.

(** The module level of [bot.py], from the environment (after
    [load_dotenv]) to the values the bot runs with. *)
Definition load_settings (env : gmap string string) : startup settings :=
  let token := env !! "DISCORD_TOKEN" in
  match py_int (env !! "CHANNEL_ID") with
  | Aborted e => Aborted e
  | Started channel_id =>
      let server_ip := env !! "SERVER_IP" in
      if py_not_str token then
        Aborted (RuntimeError "DISCORD_TOKEN environment variable not set")
      else if channel_id =? 0 then
        Aborted (RuntimeError "CHANNEL_ID environment variable not set")
      else if py_not_str server_ip then
        Aborted (RuntimeError "SERVER_IP environment variable not set")
      else
        Started {| DISCORD_TOKEN := default EmptyString token;
                   bot_config := {| CHANNEL_ID := channel_id;
                                    SERVER_IP := default EmptyString server_ip;
                                    servers := SERVERS (default EmptyString server_ip) |} |}
  end.
End startup.

(** A reader of decimal digits, for the sample environments. *)
Definition sample_int_of_str (text : string) : option Z :=
  if String.eqb text "1234" then Some 1234
  else if String.eqb text "0" then Some 0
  else None.

Definition sample_env : gmap string string :=
  {[ "DISCORD_TOKEN" := "secret"; "CHANNEL_ID" := "1234"; "SERVER_IP" := "10.0.0.1" ]}.


(** Every endpoint answers 200 with a track that ends with a slash. *)
Definition net_trailing_slash : network := λ _,
  Response 200 (body_of [("clients", PInt 5); ("maxclients", PInt 20);
                         ("track", PStr "content/tracks/")]).

(** ** Grouping and totals over counts of either kind

    [info["num_players"]] is whatever the endpoint sent under ["clients"]
    (line 121), so it can be a [float]; the loop of lines 153-162 is
    followed here for such counts as well. *)

(** A Python number: an [int], of any size, or a [float], an IEEE 754
    binary64. *)
Inductive pynum :=
| NInt (z : Z)
| NFloat (f : float).

(** The [float] an [int] is converted to when it meets a [float] in an
    addition: the nearest one, ties to even, and [OverflowError] when
    that is beyond the largest finite [float]. *)
Definition float_of_int (z : Z) : outcome float :=
  let f := SF2Prim (binary_normalize prec emax z 0 false) in
  if is_infinity f then Raise (OtherError "OverflowError") else Ok f.

(** [a + b]. *)
Definition num_add (a b : pynum) : outcome pynum :=
  match a, b with
  | NInt x, NInt y => Ok (NInt (x + y))
  | NInt x, NFloat g => f ← float_of_int x; Ok (NFloat (PrimFloat.add f g))
  | NFloat f, NInt y => g ← float_of_int y; Ok (NFloat (PrimFloat.add f g))
  | NFloat f, NFloat g => Ok (NFloat (PrimFloat.add f g))
  end.

(** [n > 0]; a [float] is compared with the [int] 0 by value, and nan is
    above nothing. *)
Definition num_positive (n : pynum) : bool :=
  match n with
  | NInt z => 0 <? z
  | NFloat f => PrimFloat.ltb PrimFloat.zero f
  end.

(** The value a status carries under ["num_players"]: one of [pyval], or
    a [float]. *)
Inductive count :=
| CVal (v : pyval)
| CFloat (f : float).

Definition count_num (c : count) : outcome pynum :=
  match c with
  | CVal v => n ← py_num v; Ok (NInt n)
  | CFloat f => Ok (NFloat f)
  end.

(** The dict a probe returns, with a count of either kind. *)
Record status := {
  status_name : string;
  status_category : string;
  status_map : string;
  status_players : string;
  status_num_players : count;
  status_ip : string;
  status_port : Z;
}.

Record num_snapshot := {
  num_grouped : gmap string (list status);
  num_category_totals : gmap string pynum;
  num_total_players : pynum;
}.

Definition empty_num_snapshot : num_snapshot :=
  {| num_grouped := list_to_map ((λ cat, (cat, [])) <$> CATEGORY_ORDER);
     num_category_totals := list_to_map ((λ cat, (cat, NInt 0)) <$> CATEGORY_ORDER);
     num_total_players := NInt 0 |}.

(** One turn of [for info in server_infos]: line 159, the test of line
    160, then line 161 (index, add, store) and line 162. *)
Definition aggregate_step_num (acc : num_snapshot) (i : status) : outcome num_snapshot :=
  let cat := status_category i in
  let grouped' := <[cat := default [] (num_grouped acc !! cat) ++ [i]]> (num_grouped acc) in
  n ← count_num (status_num_players i);
  if num_positive n then
    t ← py_index (num_category_totals acc) cat;
    t' ← num_add t n;
    total' ← num_add (num_total_players acc) n;
    Ok {| num_grouped := grouped';
          num_category_totals := <[cat := t']> (num_category_totals acc);
          num_total_players := total' |}
  else
    Ok {| num_grouped := grouped';
          num_category_totals := num_category_totals acc;
          num_total_players := num_total_players acc |}.

Definition aggregate_num (l : list status) : outcome num_snapshot :=
  foldM aggregate_step_num empty_num_snapshot l.

(** A status and a snapshot of whole counts, among those of either kind. *)
Definition lift_info (i : info) : status :=
  {| status_name := info_name i; status_category := info_category i;
     status_map := info_map i; status_players := info_players i;
     status_num_players := CVal (info_num_players i);
     status_ip := info_ip i; status_port := info_port i |}.

Definition lift_snapshot (snap : snapshot) : num_snapshot :=
  {| num_grouped := fmap (M := gmap string) (fmap (M := list) lift_info) (grouped snap);
     num_category_totals := fmap (M := gmap string) NInt (category_totals snap);
     num_total_players := NInt (total_players snap) |}.

(** The count of the status is not a [float]. *)
Definition whole (s : status) : Prop := ∃ v, status_num_players s = CVal v.

(** The status of whole count a status stands for (the count of a
    [float] one is dropped). *)
Definition lower_status (s : status) : info :=
  {| info_name := status_name s; info_category := status_category s;
     info_map := status_map s; info_players := status_players s;
     info_num_players := match status_num_players s with
                         | CVal v => v
                         | CFloat _ => PNone
                         end;
     info_ip := status_ip s; info_port := status_port s |}.

(** [grouped.get(cat, [])] and [category_totals.get(cat, 0)]. *)
Definition num_group_of (snap : num_snapshot) (cat : string) : list status :=
  default [] (num_grouped snap !! cat).
Definition num_total_of (snap : num_snapshot) (cat : string) : pynum :=
  default (NInt 0) (num_category_totals snap !! cat).

(** The count of a status as a whole number (0 where it is not one). *)
Definition whole_players (s : status) : Z := players (lower_status s).

(** The sum of the counts of the statuses of [l] whose count is above 0,
    for whole counts. *)
Definition online_whole (l : list status) : Z :=
  sumZ (whole_players <$> filter (λ s, 0 < whole_players s) l).

(** The numbers of [l] added with [+] one after the other, from the
    [int] 0. *)
Definition sum_nums (l : list pynum) : outcome pynum := foldM num_add (NInt 0) l.

(** Whether two numbers are equal as Python compares them, for two of
    the same type. *)
Definition num_eqb (a b : pynum) : bool :=
  match a, b with
  | NInt x, NInt y => x =? y
  | NFloat f, NFloat g => PrimFloat.eqb f g
  | _, _ => false
  end.

(** Statuses with a count that is a [float], and the snapshots the loop
    builds from them. *)
Definition float_status (nm cat : string) (f : float) (prt : Z) : status :=
  {| status_name := nm; status_category := cat; status_map := "spa";
     status_players := ""; status_num_players := CFloat f;
     status_ip := "10.0.0.1"; status_port := prt |}.

Definition whole_status (nm cat : string) (z : Z) (prt : Z) : status :=
  {| status_name := nm; status_category := cat; status_map := "spa";
     status_players := ""; status_num_players := CVal (PInt z);
     status_ip := "10.0.0.1"; status_port := prt |}.

(** Counts 0.1, 0.2 and 0.3. *)
Definition tenths : list status :=
  [ float_status "Race#5" "Track" 0x1.999999999999ap-4 8085;
    float_status "Drift#1" "Drift" 0x1.999999999999ap-3 8081;
    float_status "Drift#2" "Drift" 0x1.3333333333333p-2 8082 ].

Definition tenths_snapshot : num_snapshot :=
  {| num_grouped :=
       {[ "Drift" := [ float_status "Drift#1" "Drift" 0x1.999999999999ap-3 8081;
                       float_status "Drift#2" "Drift" 0x1.3333333333333p-2 8082 ];
          "Touge" := [];
          "Track" := [ float_status "Race#5" "Track" 0x1.999999999999ap-4 8085 ] ]};
     num_category_totals :=
       {[ "Drift" := NFloat 0.5; "Touge" := NInt 0;
          "Track" := NFloat 0x1.999999999999ap-4 ]};
     num_total_players := NFloat 0x1.3333333333334p-1 |}.

(** Counts 0.5 and 2^53 + 1. *)
Definition half_and_large : list status :=
  [ float_status "Drift#1" "Drift" 0.5 8081;
    whole_status "Race#5" "Track" 9007199254740993 8085 ].

Definition half_and_large_snapshot : num_snapshot :=
  {| num_grouped :=
       {[ "Drift" := [ float_status "Drift#1" "Drift" 0.5 8081 ];
          "Touge" := [];
          "Track" := [ whole_status "Race#5" "Track" 9007199254740993 8085 ] ]};
     num_category_totals :=
       {[ "Drift" := NFloat 0.5; "Touge" := NInt 0; "Track" := NInt 9007199254740993 ]};
     num_total_players := NFloat 9007199254740992 |}.

(** Counts 1e16, 1.0 and 1.0, in two orders. *)
Definition large_first : list status :=
  [ float_status "Drift#1" "Drift" 10000000000000000 8081;
    float_status "Drift#2" "Drift" 1 8082;
    float_status "Drift#3" "Drift" 1 8083 ].

Definition large_last : list status :=
  [ float_status "Drift#2" "Drift" 1 8082;
    float_status "Drift#3" "Drift" 1 8083;
    float_status "Drift#1" "Drift" 10000000000000000 8081 ].




(** ** The probe *)

Lemma try_except_total {A} (body : outcome A) (a : A) :
  ∃ r, try_except body (Ok a) = Ok r.
Proof. destruct body; simpl; eauto. Qed.

Lemma get_server_info_total net s : ∃ i, get_server_info net s = Ok i.
Proof. apply try_except_total. Qed.

Lemma get_server_info_success net s i :
  probe_body net s = Ok i → get_server_info net s = Ok i.
Proof. unfold get_server_info. by intros ->. Qed.

Lemma get_server_info_failed net s e :
  probe_body net s = Raise e → get_server_info net s = Ok (offline s).
Proof. unfold get_server_info. by intros ->. Qed.

Lemma get_server_info_cases net s i :
  get_server_info net s = Ok i →
  probe_body net s = Ok i ∨ (probe_failed net s ∧ i = offline s).
Proof.
  unfold get_server_info, probe_failed.
  destruct (probe_body net s) as [j|e]; simpl; intros [= <-]; eauto.
Qed.

(** A probe that succeeds read a JSON object whose track is a string. *)
Lemma probe_body_Ok net s i :
  probe_body net s = Ok i →
  ∃ status items p,
    net (info_url s) = Response status (Ok (JDict items)) ∧
    default (PStr "Unknown") (items !! "track") = PStr p ∧
    i = {| info_name := name s;
           info_category := category s;
           info_map := posix_basename p;
           info_players := py_str (default (PInt 0) (items !! "clients")) +:+ "/"
                           +:+ py_str (default (PInt 0) (items !! "maxclients"));
           info_num_players := default (PInt 0) (items !! "clients");
           info_ip := ip s;
           info_port := port s |}.
Proof.
  unfold probe_body.
  destruct (net (info_url s)) as [e|status [[items|]|e]]; simpl; try discriminate.
  destruct (default (PStr "Unknown") (items !! "track")) as [| | |p|] eqn:Htrack;
    simpl; try discriminate.
  intros [= <-]. by exists status, items, p.
Qed.

Lemma probe_failure_raises net s : probe_failure net s ↔ probe_failed net s.
Proof.
  unfold probe_failed, probe_body. split.
  - intros [e He|status e He|status He|status items v He Hv Hnot]; rewrite He; simpl; eauto.
    rewrite Hv. destruct v; simpl; eauto. by destruct (Hnot s0).
  - intros [e He].
    destruct (net (info_url s)) as [e'|status [[items|]|e']] eqn:Hnet.
    + by eapply failure_no_response.
    + simpl in He.
      destruct (items !! "track") as [v|] eqn:Hv; [|discriminate].
      eapply failure_track; [done..|]. intros p ->. discriminate.
    + by eapply failure_not_object.
    + by eapply failure_decode.
Qed.

(** ** [os.path.basename] keeps the final path component *)

Lemma rfind_lower c p : -1 ≤ rfind c p.
Proof.
  induction p as [|a rest IH]; simpl; [lia|].
  destruct (0 <=? rfind c rest) eqn:Hr; [lia|]. destruct (Ascii.eqb a c); lia.
Qed.

Lemma rfind_absent c p :
  rfind c p = -1 ↔ ¬ In c (list_ascii_of_string p).
Proof.
  induction p as [|a rest IH]; simpl; [tauto|].
  pose proof (rfind_lower c rest) as Hlow.
  destruct (0 <=? rfind c rest) eqn:Hr.
  - apply Z.leb_le in Hr. split; [lia|]. intros Hnot. exfalso.
    assert (rfind c rest ≠ -1) as Hne by lia. apply Hne, IH. tauto.
  - apply Z.leb_gt in Hr. assert (rfind c rest = -1) as Hrest by lia.
    apply IH in Hrest. destruct (Ascii.eqb_spec a c) as [->|Hac].
    + split; [lia|]. intros Hnot. exfalso. apply Hnot. by left.
    + split; [|done]. intros _ [Heq|Hin]; [by apply Hac | by apply Hrest].
Qed.

(** The recursion [posix_basename] follows on a non-empty path. *)
Lemma posix_basename_String a rest :
  posix_basename (String a rest) =
    if 0 <=? rfind "/" rest then posix_basename rest
    else if Ascii.eqb a "/" then rest else String a rest.
Proof.
  unfold posix_basename. simpl rfind.
  pose proof (rfind_lower "/" rest) as Hlow.
  destruct (0 <=? rfind "/" rest) eqn:Hr.
  - apply Z.leb_le in Hr.
    replace (Z.to_nat (rfind "/" rest + 1 + 1)) with (S (Z.to_nat (rfind "/" rest + 1))) by lia.
    done.
  - destruct (Ascii.eqb a "/"); done.
Qed.

Lemma posix_basename_final p : final_component p (posix_basename p).
Proof.
  induction p as [|a rest [IHno IHsplit]]; [split; [simpl; tauto | by left]|].
  rewrite posix_basename_String.
  destruct (0 <=? rfind "/" rest) eqn:Hr.
  - split; [done|]. right. destruct IHsplit as [Heq|[dir Hdir]].
    + exfalso. apply Z.leb_le in Hr.
      assert (rfind "/" rest = -1) as Habs; [|lia].
      apply rfind_absent. by rewrite Heq at 1.
    + exists (String a dir). by rewrite Hdir at 1.
  - apply Z.leb_gt in Hr. pose proof (rfind_lower "/" rest) as Hlow.
    assert (rfind "/" rest = -1) as Hrest by lia. apply rfind_absent in Hrest.
    destruct (Ascii.eqb_spec a "/") as [->|Ha].
    + split; [done|]. right. by exists EmptyString.
    + split; [|by left]. simpl. intros [Heq|Hin]; [by apply Ha | by apply Hrest].
Qed.

(** ** Statements about the probe *)

(** C6.  When the probe succeeds (the body of the [try] returns), the
    endpoint answered a JSON object, and the returned status takes
    [num_players] from its [clients], the capacity from its [maxclients]
    and the map name as the final path component of its [track]; a
    missing [clients] or [maxclients] counts as 0 and a missing [track] as
    "Unknown"; the ratio string is the two values written with a slash
    between them, in decimal when they are integers. *)
Theorem probe_success_fields net s i :
  probe_body net s = Ok i →
  get_server_info net s = Ok i ∧
  ∃ status items num_players max_players track,
    net (info_url s) = Response status (Ok (JDict items)) ∧
    num_players = default (PInt 0) (items !! "clients") ∧
    max_players = default (PInt 0) (items !! "maxclients") ∧
    PStr track = default (PStr "Unknown") (items !! "track") ∧
    info_num_players i = num_players ∧
    info_players i = py_str num_players +:+ "/" +:+ py_str max_players ∧
    final_component track (info_map i) ∧
    (items !! "clients" = None → info_num_players i = PInt 0) ∧
    (items !! "track" = None → info_map i = "Unknown") ∧
    (∀ c m, items !! "clients" = Some (PInt c) → items !! "maxclients" = Some (PInt m) →
            info_players i = pretty c +:+ "/" +:+ pretty m) ∧
    (∀ c, items !! "clients" = Some (PInt c) → items !! "maxclients" = None →
          info_players i = pretty c +:+ "/0") ∧
    (info_name i, info_category i, info_ip i, info_port i)
      = (name s, category s, ip s, port s).
Proof.
  intros Hbody. split; [by apply get_server_info_success|].
  destruct (probe_body_Ok _ _ _ Hbody) as (status & items & p & Hnet & Htrack & ->).
  exists status, items, (default (PInt 0) (items !! "clients")),
    (default (PInt 0) (items !! "maxclients")), p.
  simpl. repeat split; try done.
  - apply posix_basename_final.
  - apply posix_basename_final.
  - by intros ->.
  - intros Hnone. rewrite Hnone in Htrack. by injection Htrack as <-.
  - by intros c m -> ->.
  - by intros c -> ->.
Qed.

Lemma probe_success_fields_witness :
  get_server_info net_spa sample_server =
    Ok {| info_name := "ABSA Drift#1 | Rotating Maps | BDC 4.0";
          info_category := "Drift";
          info_map := "spa";
          info_players := "5/20";
          info_num_players := PInt 5;
          info_ip := "10.0.0.1";
          info_port := 8081 |}.
Proof.
  refine (proj1 (probe_success_fields net_spa sample_server _ _)).
  vm_compute. reflexivity.
Defined.

(** The claim as written fails: an endpoint that answers
    [{"clients": -1}] makes the probe succeed with a count of -1, a
    status that is neither of the two shapes, and whose count is -1
    although the probe did not fail. *)
Lemma probe_shape_counterexample :
  ∃ i, get_server_info net_minus_one sample_server = Ok i ∧
       ¬ (answered_shape i ∨ i = offline sample_server) ∧
       info_num_players i = PInt (-1) ∧
       ¬ probe_failed net_minus_one sample_server.
Proof.
  eexists. split; [vm_compute; reflexivity|]. split; [|split].
  - intros [[(n & Hn & Hpos) _]|Hoff].
    + simpl in Hn. injection Hn as <-. lia.
    + discriminate Hoff.
  - reflexivity.
  - intros [e He]. vm_compute in He. discriminate He.
Qed.

(** C1, amended.  Provided that an endpoint which answers a JSON object
    reports [clients], when present, as an integer of at least 0, and a
    [track] whose final path component is not "Offline", the probe
    returns either a status with a count of at least 0 and a map other
    than "Offline", or exactly the Offline sentinel, and its count is -1
    exactly when the probe failed. *)
Theorem probe_shape net s :
  (∀ status items v,
      net (info_url s) = Response status (Ok (JDict items)) →
      items !! "clients" = Some v → ∃ n, v = PInt n ∧ 0 ≤ n) →
  (∀ status items p,
      net (info_url s) = Response status (Ok (JDict items)) →
      items !! "track" = Some (PStr p) → posix_basename p ≠ "Offline") →
  ∃ i, get_server_info net s = Ok i ∧
       (answered_shape i ∨ i = offline s) ∧
       (info_num_players i = PInt (-1) ↔ probe_failed net s).
Proof.
  intros Hclients Htrack.
  destruct (get_server_info_total net s) as [i Hi]. exists i. split; [done|].
  destruct (get_server_info_cases _ _ _ Hi) as [Hbody|[Hfail ->]].
  - destruct (probe_body_Ok _ _ _ Hbody) as (status & items & p & Hnet & Hp & ->).
    assert (∃ n, default (PInt 0) (items !! "clients") = PInt n ∧ 0 ≤ n) as (n & Hn & Hpos).
    { destruct (items !! "clients") as [v|] eqn:Hv; [by eapply Hclients|].
      by exists 0. }
    assert (posix_basename p ≠ "Offline") as Hmap.
    { destruct (items !! "track") as [v|] eqn:Hv.
      - simpl in Hp. subst v. by eapply Htrack.
      - simpl in Hp. injection Hp as <-. by vm_compute. }
    split.
    + left. split; simpl; eauto.
    + simpl. rewrite Hn. split.
      * intros [= ->]. lia.
      * intros [e He]. rewrite Hbody in He. discriminate.
  - split; [by right|]. done.
Qed.

Lemma probe_shape_witness :
  ∃ i, get_server_info net_spa sample_server = Ok i ∧
       (answered_shape i ∨ i = offline sample_server) ∧
       (info_num_players i = PInt (-1) ↔ probe_failed net_spa sample_server).
Proof.
  apply (probe_shape net_spa sample_server).
  - intros status items v [= <- <-] Hv. vm_compute in Hv.
    injection Hv as <-. exists 5. split; [reflexivity|lia].
  - intros status items p [= <- <-] Hp. vm_compute in Hp.
    injection Hp as <-. vm_compute. discriminate.
Defined.

(** The claim as written fails for a response that is not 2xx: the code
    never looks at the status, so a 503 whose body is a JSON object is
    read like any other answer. *)
Lemma probe_non_2xx_counterexample :
  ∃ status json,
    net_503 (info_url sample_server) = Response status json ∧
    ¬ (200 ≤ status < 300) ∧
    get_server_info net_503 sample_server ≠ Ok (offline sample_server).
Proof.
  eexists _, _. split; [reflexivity|]. split; [lia|].
  vm_compute. discriminate.
Qed.

(** C2, amended.  The probe never raises: it always returns a status.
    On every failure that raises inside the [try] (the request raises,
    as for a connection error or a timeout; the body does not decode as
    JSON; the decoded value is not an object; [track] is not a string)
    it returns the Offline sentinel of that server's descriptor.  The
    HTTP status plays no part: the same body gives the same result under
    any status. *)
Theorem probe_failure_offline net s :
  (∃ i, get_server_info net s = Ok i) ∧
  (probe_failure net s → get_server_info net s = Ok (offline s)) ∧
  (∀ e, probe_body net s = Raise e → get_server_info net s = Ok (offline s)) ∧
  (∀ status status' json,
      net (info_url s) = Response status json →
      get_server_info net s = get_server_info (λ _, Response status' json) s).
Proof.
  split; [apply get_server_info_total|]. split; [|split].
  - intros [e He]%probe_failure_raises. by eapply get_server_info_failed.
  - intros e. apply get_server_info_failed.
  - intros status status' json Hnet.
    unfold get_server_info, probe_body. by rewrite Hnet.
Qed.

Lemma probe_failure_offline_witness :
  get_server_info net_down sample_server =
    Ok {| info_name := "ABSA Drift#1 | Rotating Maps | BDC 4.0";
          info_category := "Drift";
          info_map := "Offline";
          info_players := "0/0";
          info_num_players := PInt (-1);
          info_ip := "10.0.0.1";
          info_port := 8081 |}.
Proof.
  apply (proj1 (proj2 (probe_failure_offline net_down sample_server))).
  by eapply failure_no_response.
Defined.

(** ** Results in the [outcome] monad *)

Lemma bind_Ok {A B} (m : outcome A) (k : A → outcome B) b :
  m ≫= k = Ok b ↔ ∃ a, m = Ok a ∧ k a = Ok b.
Proof.
  destruct m as [a|e]; simpl; split.
  - eauto.
  - by intros (? & [= <-] & ?).
  - discriminate.
  - by intros (? & [=] & ?).
Qed.

Lemma mapM_Ok {A B} (f : A → outcome B) l k :
  mapM f l = Ok k ↔ Forall2 (λ x y, f x = Ok y) l k.
Proof.
  revert k. induction l as [|x l IH]; intros k; simpl.
  - split; [intros [= <-]; constructor | by inversion 1].
  - split.
    + intros (y & Hy & (ys & Hys & [= <-])%bind_Ok)%bind_Ok.
      constructor; [done|]. by apply IH.
    + inversion 1 as [|? y ? ys Hy Hys]; subst.
      apply bind_Ok. exists y. split; [done|].
      apply bind_Ok. exists ys. split; [by apply IH|done].
Qed.


(** ** Sums of counts *)

Lemma online_players_nil : online_players [] = 0.
Proof. done. Qed.

Lemma online_players_cons i l :
  online_players (i :: l) = (if 0 <? players i then players i else 0) + online_players l.
Proof.
  unfold online_players. rewrite filter_cons.
  destruct (decide (0 < players i)) as [Hpos|Hneg].
  - apply Z.ltb_lt in Hpos as ->. done.
  - apply Z.ltb_nlt in Hneg as ->. done.
Qed.

Lemma online_players_app l1 l2 :
  online_players (l1 ++ l2) = online_players l1 + online_players l2.
Proof.
  induction l1 as [|i l1 IH]; simpl; [done|].
  rewrite !online_players_cons, IH. lia.
Qed.

Lemma sumZ_cons x l : sumZ (x :: l) = x + sumZ l.
Proof. done. Qed.

Lemma sumZ_fmap_add {A} (f g : A → Z) (l : list A) :
  sumZ ((λ x, f x + g x) <$> l) = sumZ (f <$> l) + sumZ (g <$> l).
Proof.
  induction l as [|x l IH]; [done|]. rewrite !fmap_cons, !sumZ_cons, IH. lia.
Qed.

Lemma sumZ_fmap_zero {A} (f : A → Z) (l : list A) :
  (∀ x, x ∈ l → f x = 0) → sumZ (f <$> l) = 0.
Proof.
  induction l as [|x l IH]; [done|]. intros Hzero.
  rewrite fmap_cons, sumZ_cons, (Hzero x), IH; [done| |by left].
  intros y Hy. apply Hzero. by right.
Qed.

Lemma filter_in_category_single cat i :
  filter (in_category cat) [i] = if decide (info_category i = cat) then [i] else [].
Proof.
  rewrite filter_cons. unfold in_category_dec.
  destruct (decide (info_category i = cat)); done.
Qed.

(** One status is counted under its own category and under no other. *)
Lemma online_players_single_by_category (cats : list string) (i : info) :
  NoDup cats →
  sumZ ((λ cat, online_players (filter (in_category cat) [i])) <$> cats)
    = if decide (info_category i ∈ cats) then online_players [i] else 0.
Proof.
  induction 1 as [|c cats Hc Hnodup IH].
  - destruct (decide _) as [Hin|_]; [by apply elem_of_nil in Hin|done].
  - rewrite fmap_cons, sumZ_cons, IH, filter_in_category_single.
    destruct (decide (info_category i ∈ cats)) as [Hin|Hout];
      destruct (decide (info_category i ∈ c :: cats)) as [Hhere|Hnot];
      destruct (decide (info_category i = c)) as [Heq|Hne];
      rewrite ?online_players_nil; try lia; exfalso;
      first [ by subst c
            | by apply Hnot; right
            | by apply Hnot; subst c; left
            | by apply elem_of_cons in Hhere as [?|?] ].
Qed.

(** Splitting the statuses by category loses no counted player, as long
    as every status that is counted belongs to one of the categories. *)
Lemma online_players_by_category (cats : list string) (l : list info) :
  NoDup cats →
  Forall (λ i, 0 < players i → info_category i ∈ cats) l →
  online_players l = sumZ ((λ cat, online_players (filter (in_category cat) l)) <$> cats).
Proof.
  intros Hnodup. induction 1 as [|i l Hi _ IH].
  - symmetry. by apply sumZ_fmap_zero.
  - change (i :: l) with ([i] ++ l).
    rewrite online_players_app, IH.
    assert (online_players [i]
            = sumZ ((λ cat, online_players (filter (in_category cat) [i])) <$> cats)) as ->.
    { rewrite online_players_single_by_category by done.
      destruct (decide (info_category i ∈ cats)) as [|Hout]; [done|].
      rewrite online_players_cons, online_players_nil.
      destruct (0 <? players i) eqn:Hpos; [|done].
      apply Z.ltb_lt in Hpos. by destruct Hout; apply Hi. }
    rewrite <- sumZ_fmap_add. f_equal. apply list_fmap_ext. intros _ cat _.
    by rewrite filter_app, online_players_app.
Qed.

(** ** The grouping loop *)

Lemma players_numeric i n : py_num (info_num_players i) = Ok n → players i = n.
Proof. unfold players. by intros ->. Qed.

Lemma online_players_single i :
  online_players [i] = if 0 <? players i then players i else 0.
Proof. rewrite online_players_cons, online_players_nil. lia. Qed.

(** What one turn of the loop does to the accumulator, when it returns. *)
Lemma aggregate_step_Ok acc i acc' :
  aggregate_step acc i = Ok acc' →
  numeric i ∧
  (∀ cat, group_of acc' cat = group_of acc cat ++ filter (in_category cat) [i]) ∧
  dom (category_totals acc') = dom (category_totals acc) ∧
  (∀ cat, total_of acc' cat
          = total_of acc cat + online_players (filter (in_category cat) [i])) ∧
  total_players acc' = total_players acc + online_players [i] ∧
  (0 < players i → info_category i ∈ dom (category_totals acc)).
Proof.
  unfold aggregate_step, numeric.
  destruct (py_num (info_num_players i)) as [n|e] eqn:Hnum; simpl; [|discriminate].
  assert (∀ cat, default [] (<[info_category i := group_of acc (info_category i) ++ [i]]>
                               (grouped acc) !! cat)
                 = group_of acc cat ++ filter (in_category cat) [i]) as Hgroups.
  { intros cat. rewrite lookup_insert, filter_in_category_single. unfold group_of.
    destruct (decide (info_category i = cat)) as [<-|]; simpl; [done|].
    by rewrite app_nil_r. }
  rewrite online_players_single, (players_numeric _ _ Hnum).
  destruct (0 <? n) eqn:Hpos.
  - unfold py_index.
    destruct (category_totals acc !! info_category i) as [t|] eqn:Ht; simpl; [|discriminate].
    intros [= <-]. simpl. repeat split; eauto.
    + apply dom_insert_lookup_L. eauto.
    + intros cat. unfold total_of. simpl.
      rewrite lookup_insert, filter_in_category_single.
      destruct (decide (info_category i = cat)) as [<-|]; simpl.
      * rewrite Ht, online_players_single, (players_numeric _ _ Hnum), Hpos. done.
      * rewrite online_players_nil. lia.
    + intros _. apply elem_of_dom. eauto.
  - intros [= <-]. simpl. repeat split; eauto.
    + intros cat. unfold total_of. simpl.
      rewrite filter_in_category_single.
      destruct (decide (info_category i = cat)); simpl.
      * rewrite online_players_single, (players_numeric _ _ Hnum), Hpos. lia.
      * rewrite online_players_nil. lia.
    + lia.
    + apply Z.ltb_ge in Hpos. lia.
Qed.

(** The loop as a whole, from any accumulator. *)
Lemma aggregate_from_Ok acc l snap :
  foldM aggregate_step acc l = Ok snap →
  Forall numeric l ∧
  (∀ cat, group_of snap cat = group_of acc cat ++ filter (in_category cat) l) ∧
  dom (category_totals snap) = dom (category_totals acc) ∧
  (∀ cat, total_of snap cat
          = total_of acc cat + online_players (filter (in_category cat) l)) ∧
  total_players snap = total_players acc + online_players l ∧
  Forall (λ i, 0 < players i → info_category i ∈ dom (category_totals acc)) l.
Proof.
  revert acc. induction l as [|i l IH]; intros acc; simpl.
  - intros [= <-]. repeat split; try done.
    + intros cat. by rewrite app_nil_r.
    + intros cat. unfold online_players. simpl. lia.
    + unfold online_players. simpl. lia.
  - intros (acc' & Hstep & Hrest)%bind_Ok.
    apply aggregate_step_Ok in Hstep as (Hnum & Hgroup & Hdom & Htotals & Htotal & Hkey).
    apply IH in Hrest as (Hnums & Hgroup' & Hdom' & Htotals' & Htotal' & Hkeys).
    repeat split.
    + by constructor.
    + intros cat. change (i :: l) with ([i] ++ l).
      by rewrite Hgroup', Hgroup, filter_app, <- app_assoc.
    + congruence.
    + intros cat. change (i :: l) with ([i] ++ l).
      rewrite Htotals', Htotals, filter_app, online_players_app. lia.
    + change (i :: l) with ([i] ++ l). rewrite Htotal', Htotal, online_players_app. lia.
    + constructor; [done|]. by rewrite <- Hdom.
Qed.

Lemma group_of_empty cat : group_of empty_snapshot cat = [].
Proof.
  unfold group_of, empty_snapshot. simpl.
  rewrite !lookup_insert. repeat case_decide; done.
Qed.

Lemma total_of_empty cat : total_of empty_snapshot cat = 0.
Proof.
  unfold total_of, empty_snapshot. simpl.
  rewrite !lookup_insert. repeat case_decide; done.
Qed.

Lemma dom_totals_empty :
  dom (category_totals empty_snapshot) = list_to_set CATEGORY_ORDER.
Proof. unfold empty_snapshot. simpl. by rewrite !dom_insert_L, dom_empty_L. Qed.

Lemma CATEGORY_ORDER_NoDup : NoDup CATEGORY_ORDER.
Proof.
  unfold CATEGORY_ORDER. repeat constructor; rewrite ?elem_of_cons, ?elem_of_nil;
    intuition discriminate.
Qed.

(** What [aggregate] returns, when it returns. *)
Lemma aggregate_Ok infos snap :
  aggregate infos = Ok snap →
  Forall numeric infos ∧
  (∀ cat, group_of snap cat = filter (in_category cat) infos) ∧
  dom (category_totals snap) = list_to_set CATEGORY_ORDER ∧
  (∀ cat, total_of snap cat = online_players (filter (in_category cat) infos)) ∧
  total_players snap = online_players infos ∧
  Forall (λ i, 0 < players i → info_category i ∈ CATEGORY_ORDER) infos.
Proof.
  intros (Hnum & Hgroup & Hdom & Htotals & Htotal & Hkeys)%aggregate_from_Ok.
  split; [done|].
  split; [intros cat; by rewrite Hgroup, group_of_empty|].
  split; [by rewrite Hdom, dom_totals_empty|].
  split; [intros cat; rewrite Htotals, total_of_empty; lia|].
  split; [rewrite Htotal; simpl; lia|].
  eapply Forall_impl; [exact Hkeys|]. intros i Hi Hpos.
  specialize (Hi Hpos). rewrite dom_totals_empty in Hi.
  by apply elem_of_list_to_set in Hi.
Qed.

(** A status whose count is not above 0 leaves every total as it was. *)
Lemma aggregate_step_not_counted acc i n :
  py_num (info_num_players i) = Ok n → n ≤ 0 →
  ∃ acc', aggregate_step acc i = Ok acc' ∧
          category_totals acc' = category_totals acc ∧
          total_players acc' = total_players acc.
Proof.
  intros Hnum Hle. unfold aggregate_step. rewrite Hnum. simpl.
  apply Z.ltb_ge in Hle as ->. eauto.
Qed.

(** ** Statements about the totals *)

(** ** The fan-out *)

Lemma server_infos_total net servers : ∃ infos, server_infos net servers = Ok infos.
Proof.
  induction servers as [|s servers [infos IH]]; [by exists []|].
  destruct (get_server_info_total net s) as [i Hi].
  exists (i :: infos). apply mapM_Ok. constructor; [done|]. by apply mapM_Ok.
Qed.

(** A status carries the name, category and address of its descriptor. *)
Lemma get_server_info_descriptor net s i :
  get_server_info net s = Ok i →
  info_name i = name s ∧ info_category i = category s ∧
  info_ip i = ip s ∧ info_port i = port s.
Proof.
  intros [Hbody|[_ ->]]%get_server_info_cases; [|done].
  by destruct (probe_body_Ok _ _ _ Hbody) as (? & ? & ? & _ & _ & ->).
Qed.

Section gather.
  Context {A : Type} (results : list A).

Lemma gather_store_lookup slots c k :
  length slots = length results →
  gather_store results slots c !! k
    = if decide (c = k) then Some <$> results !! k else slots !! k.
Proof.
  intros Hlen. unfold gather_store.
  destruct (results !! c) as [r|] eqn:Hr.
  - destruct (decide (c = k)) as [<-|Hne].
    + rewrite list_lookup_insert_eq, Hr; [done|].
      rewrite Hlen. by eapply lookup_lt_Some.
    + by rewrite list_lookup_insert_ne.
  - destruct (decide (c = k)) as [<-|Hne]; [|done].
    rewrite Hr. simpl. apply lookup_ge_None. rewrite Hlen. by apply lookup_ge_None.
Qed.

Lemma gather_store_length slots c :
  length (gather_store results slots c) = length slots.
Proof. unfold gather_store. destruct (results !! c); [apply length_insert|done]. Qed.

(** The slots once the awaitables of [completion] have completed. *)
Lemma gather_slots completion slots k :
  length slots = length results →
  foldl (gather_store results) slots completion !! k
    = if decide (k ∈ completion) then Some <$> results !! k else slots !! k.
Proof.
  revert slots. induction completion as [|c completion IH]; intros slots Hlen; simpl.
  - destruct (decide (k ∈ [])) as [Hin|_]; [by apply elem_of_nil in Hin|done].
  - rewrite IH by by rewrite gather_store_length.
    rewrite gather_store_lookup by done.
    destruct (decide (k ∈ completion)) as [Hin|Hout].
    + rewrite decide_True; [done|by right].
    + destruct (decide (c = k)) as [<-|Hne].
      * rewrite decide_True; [done|by left].
      * rewrite decide_False; [done|].
        intros [?|?]%elem_of_cons; congruence.
Qed.

(** Whatever the order in which the awaitables complete, [gather]
    returns their results by position. *)
Lemma gather_any_order completion :
  completion ≡ₚ seq 0 (length results) → gather results completion = Some results.
Proof.
  intros Hperm. unfold gather.
  assert (foldl (gather_store results) (replicate (length results) None) completion
          = Some <$> results) as ->.
  { apply list_eq. intros k.
    rewrite gather_slots by apply length_replicate.
    rewrite list_lookup_fmap.
    destruct (decide (k ∈ completion)) as [|Hout]; [done|].
    assert (¬ (k < length results)%nat) as Hk.
    { intros Hlt. apply Hout. rewrite Hperm. apply elem_of_seq. lia. }
    rewrite (proj1 (lookup_replicate_None (length results) None k)) by lia.
    rewrite (proj2 (lookup_ge_None results k)); [done|lia]. }
  by apply mapM_fmap_Some.
Qed.

(** While some awaitable has not completed, [gather] has nothing to
    return. *)
Lemma gather_incomplete completion k :
  (k < length results)%nat → k ∉ completion → gather results completion = None.
Proof.
  intros Hk Hout. unfold gather. apply mapM_None, Exists_exists.
  exists None. split; [|done]. apply list_elem_of_lookup. exists k.
  rewrite gather_slots by apply length_replicate.
  rewrite decide_False by done. by apply lookup_replicate_2.
Qed.
End gather.

(** ** Statements about the grouping *)

(** C5.  The statuses come back one per descriptor, in the order of the
    descriptors and each with its descriptor's name and category,
    whatever the order in which the probes complete; the group of a
    category is the list of the statuses of that category in that same
    order, so that every status is in the group of its own category and
    in no other. *)
Theorem grouping_by_category net servers infos snap :
  server_infos net servers = Ok infos →
  aggregate infos = Ok snap →
  Forall2 (λ s i, get_server_info net s = Ok i ∧
                  info_name i = name s ∧ info_category i = category s) servers infos ∧
  (∀ completion, completion ≡ₚ seq 0 (length infos) →
                 gather infos completion = Some infos) ∧
  (∀ cat, group_of snap cat = filter (in_category cat) infos) ∧
  (∀ i, i ∈ infos →
        i ∈ group_of snap (info_category i) ∧
        ∀ cat, cat ≠ info_category i → i ∉ group_of snap cat).
Proof.
  intros Hinfos (_ & Hgroup & _)%aggregate_Ok.
  split; [|split; [|split]].
  - apply mapM_Ok in Hinfos. eapply Forall2_impl; [exact Hinfos|].
    intros s i Hi. split; [done|].
    by destruct (get_server_info_descriptor _ _ _ Hi) as (? & ? & _).
  - apply gather_any_order.
  - done.
  - intros i Hin. split.
    + rewrite Hgroup. by apply list_elem_of_filter.
    + intros cat Hne. rewrite Hgroup. intros [Hcat _]%list_elem_of_filter.
      by apply Hne.
Qed.

Lemma grouping_by_category_witness :
  server_infos sample_net sample_servers = Ok sample_infos ∧
  aggregate sample_infos = Ok sample_snapshot ∧
  gather sample_infos [2; 0; 3; 1]%nat = Some sample_infos ∧
  group_of sample_snapshot "Drift" = filter (in_category "Drift") sample_infos.
Proof.
  assert (server_infos sample_net sample_servers = Ok sample_infos) as Hinfos
    by (vm_compute; reflexivity).
  assert (aggregate sample_infos = Ok sample_snapshot) as Hrun
    by (vm_compute; reflexivity).
  destruct (grouping_by_category _ _ _ _ Hinfos Hrun) as (_ & Hgather & Hgroup & _).
  split; [exact Hinfos|]. split; [exact Hrun|]. split; [|apply Hgroup].
  apply Hgather. by apply (bool_decide_unpack _).
Defined.

(** ** When the loop raises *)




(** The two ways a turn of the loop raises: the count is not a number,
    or it is above 0 and the category has no total to add it to. *)
Lemma aggregate_step_Raise acc i e :
  aggregate_step acc i = Raise e →
  (¬ numeric i ∧ e = TypeError) ∨
  (0 < players i ∧ (info_category i ∉ dom (category_totals acc)) ∧
   e = KeyError (info_category i)).
Proof.
  unfold aggregate_step, numeric, players.
  destruct (info_num_players i) as [|b|n|?|?]; simpl;
    try (intros [= <-]; left; split; [by intros [? [=]]|done]).
  - destruct (0 <? (if b then 1 else 0)) eqn:Hpos; [|discriminate].
    unfold py_index.
    destruct (category_totals acc !! info_category i) eqn:Hkey; simpl; [discriminate|].
    intros [= <-]. right. apply Z.ltb_lt in Hpos. split; [done|].
    split; [|done]. by apply not_elem_of_dom.
  - destruct (0 <? n) eqn:Hpos; [|discriminate].
    unfold py_index.
    destruct (category_totals acc !! info_category i) eqn:Hkey; simpl; [discriminate|].
    intros [= <-]. right. apply Z.ltb_lt in Hpos. split; [done|].
    split; [|done]. by apply not_elem_of_dom.
Qed.





(** ** Rendering *)

Lemma server_field_Ok i f :
  server_field i = Ok f →
  ∃ n, py_num (info_num_players i) = Ok n ∧
       field_name f = (if 0 <=? n then online_marker else offline_marker)
                      +:+ " " +:+ info_name i.
Proof.
  unfold server_field. destruct (py_num (info_num_players i)) as [n|]; simpl; [|discriminate].
  intros [= <-]. by exists n.
Qed.

Lemma server_field_numeric i : numeric i → ∃ f, server_field i = Ok f.
Proof. intros [n Hn]. unfold server_field. rewrite Hn. simpl. eauto. Qed.


(** An [int] is written when it has at most 4300 digits, and then in
    decimal. *)
Lemma format_int_Ok z text :
  format_int z = Ok text ↔ Z.abs z < 10 ^ int_max_str_digits ∧ text = pretty z.
Proof.
  unfold format_int. destruct (Z.ltb_spec (Z.abs z) (10 ^ int_max_str_digits)).
  - split; [by intros [= <-]|by intros [_ ->]].
  - split; [discriminate|]. intros [? _]. lia.
Qed.


Lemma format_int_small z : Z.abs z < 10 ^ 18 → format_int z = Ok (pretty z).
Proof.
  intros Hsmall. apply format_int_Ok. split; [|done].
  eapply Z.lt_le_trans; [exact Hsmall|].
  apply Z.pow_le_mono_r; unfold int_max_str_digits; lia.
Qed.

Lemma category_fields_Ok snap cat fs :
  category_fields snap cat = Ok fs →
  Z.abs (total_of snap cat) < 10 ^ int_max_str_digits ∧
  ∃ entries, Forall2 (λ i f, server_field i = Ok f) (group_of snap cat) entries ∧
             fs = header_field cat (category_totals snap) :: entries ++ [spacing_field].
Proof.
  unfold category_fields.
  intros (text & [Hsize _]%format_int_Ok
          & (entries & Hentries%mapM_Ok & [= <-])%bind_Ok)%bind_Ok.
  split; [done|]. by exists entries.
Qed.

Lemma render_Ok ip snap e :
  render ip snap = Ok e →
  ∃ sections, Forall2 (λ cat fs, category_fields snap cat = Ok fs) CATEGORY_ORDER sections ∧
              embed_fields e = concat sections ∧
              embed_description e = "👥 **Total Players:** " +:+ pretty (total_players snap).
Proof.
  unfold render.
  intros (text & [_ ->]%format_int_Ok
          & (sections & Hsections%mapM_Ok & [= <-])%bind_Ok)%bind_Ok.
  by exists sections.
Qed.

Lemma render_Ok_total ip snap e :
  render ip snap = Ok e → Z.abs (total_players snap) < 10 ^ int_max_str_digits.
Proof.
  unfold render. by intros (text & [Hsize _]%format_int_Ok & _)%bind_Ok.
Qed.


Lemma build_embed_Ok ip servers net e :
  build_embed ip servers net = Ok e ↔
  ∃ infos snap, server_infos net servers = Ok infos ∧
                aggregate infos = Ok snap ∧ render ip snap = Ok e.
Proof.
  unfold build_embed. rewrite bind_Ok. split.
  - intros (infos & Hinfos & (snap & Hsnap & Hrender)%bind_Ok). eauto.
  - intros (infos & snap & Hinfos & Hsnap & Hrender).
    exists infos. split; [done|]. apply bind_Ok. eauto.
Qed.


(** The fields of the embed: for each category in display order a
    header, the entries of its group in order, and a spacer. *)
Lemma embed_fields_elem snap sections f :
  Forall2 (λ cat fs, category_fields snap cat = Ok fs) CATEGORY_ORDER sections →
  f ∈ concat sections ↔
  ∃ cat, cat ∈ CATEGORY_ORDER ∧
         (f = header_field cat (category_totals snap) ∨ f = spacing_field ∨
          ∃ i, i ∈ group_of snap cat ∧ server_field i = Ok f).
Proof.
  generalize CATEGORY_ORDER. intros cats Hsections.
  induction Hsections as [|cat fs cats sections Hfs _ IH]; simpl.
  - split; [by intros ?%elem_of_nil|]. by intros (? & ?%elem_of_nil & _).
  - apply category_fields_Ok in Hfs as (_ & entries & Hentries & ->).
    rewrite elem_of_app, IH, elem_of_cons, elem_of_app, list_elem_of_singleton.
    split.
    + intros [[Hhead|[Hentry|Hspace]]|(cat' & Hin & Hcase)].
      * exists cat. split; [by left|]. by left.
      * exists cat. split; [by left|]. right. right.
        apply list_elem_of_lookup in Hentry as [k Hk].
        destruct (Forall2_lookup_r _ _ _ _ _ Hentries Hk) as (i & Hi & Hfield).
        exists i. split; [|done]. apply list_elem_of_lookup. eauto.
      * exists cat. split; [by left|]. right. by left.
      * exists cat'. split; [by right|done].
    + intros (cat' & [->|Hin]%elem_of_cons & Hcase).
      * left. destruct Hcase as [->|[->|(i & Hi & Hfield)]]; [by left|right; by right|].
        right. left. apply list_elem_of_lookup in Hi as [k Hk].
        destruct (Forall2_lookup_l _ _ _ _ _ Hentries Hk) as (f' & Hf' & Hfield').
        rewrite Hfield in Hfield'. injection Hfield' as <-.
        apply list_elem_of_lookup. eauto.
      * right. eauto.
Qed.

Lemma markers_differ a b : online_marker +:+ a ≠ offline_marker +:+ b.
Proof. unfold online_marker, offline_marker. simpl. discriminate. Qed.

(** ** Statements about the rendered document *)

(** C7.  Every entry of the rendered document is a category header, a
    spacer or the entry of one of the statuses, and every status of a
    fixed category has its entry; the entry of a status carries the
    online marker exactly when its count is at least 0 and the offline
    marker exactly when it is below 0.  A status that answered with 0
    players is shown with the online marker and adds 0 to the totals. *)
Theorem status_markers ip servers net infos e :
  server_infos net servers = Ok infos →
  build_embed ip servers net = Ok e →
  (∀ f, f ∈ embed_fields e →
        f = spacing_field ∨ (∃ cat totals, f = header_field cat totals) ∨
        ∃ i, i ∈ infos ∧ server_field i = Ok f) ∧
  (∀ i, i ∈ infos → info_category i ∈ CATEGORY_ORDER →
        ∃ f, f ∈ embed_fields e ∧ server_field i = Ok f) ∧
  (∀ i f, server_field i = Ok f →
        ∃ n, py_num (info_num_players i) = Ok n ∧
             (field_name f = online_marker +:+ " " +:+ info_name i ↔ 0 ≤ n) ∧
             (field_name f = offline_marker +:+ " " +:+ info_name i ↔ n < 0)) ∧
  (∀ i f, info_num_players i = PInt 0 → server_field i = Ok f →
        field_name f = online_marker +:+ " " +:+ info_name i ∧
        online_players [i] = 0).
Proof.
  intros Hinfos (infos' & snap & Hinfos' & Hsnap & Hrender)%build_embed_Ok.
  rewrite Hinfos in Hinfos'. injection Hinfos' as <-.
  apply aggregate_Ok in Hsnap as (Hnum & Hgroup & _).
  apply render_Ok in Hrender as (sections & Hsections & Hfields & _).
  assert (∀ i f, server_field i = Ok f →
            ∃ n, py_num (info_num_players i) = Ok n ∧
                 (field_name f = online_marker +:+ " " +:+ info_name i ↔ 0 ≤ n) ∧
                 (field_name f = offline_marker +:+ " " +:+ info_name i ↔ n < 0)) as Hmarker.
  { intros i f (n & Hn & Hname)%server_field_Ok. exists n. split; [done|].
    rewrite Hname. destruct (0 <=? n) eqn:Hsign.
    - apply Z.leb_le in Hsign. split; [done|]. split; [|lia].
      intros Heq. by apply markers_differ in Heq.
    - apply Z.leb_gt in Hsign. split; [|done]. split; [|lia].
      intros Heq. symmetry in Heq. by apply markers_differ in Heq. }
  split; [|split; [|split; [done|]]].
  - intros f. rewrite Hfields, (embed_fields_elem snap) by done.
    intros (cat & _ & [->|[->|(i & Hi & Hfield)]]); [right; left; eauto|by left|].
    right. right. exists i. split; [|done].
    rewrite Hgroup in Hi. by apply list_elem_of_filter in Hi as [_ ?].
  - intros i Hin Hcat.
    destruct (server_field_numeric i) as [f Hf];
      [by eapply Forall_forall in Hnum|].
    exists f. split; [|done]. rewrite Hfields, (embed_fields_elem snap) by done.
    exists (info_category i). split; [done|]. right. right. exists i.
    split; [|done]. rewrite Hgroup. by apply list_elem_of_filter.
  - intros i f Hzero Hf.
    destruct (Hmarker i f Hf) as (n & Hn & Honline & _).
    rewrite Hzero in Hn. injection Hn as <-. split; [by apply Honline|].
    rewrite online_players_single. unfold players. by rewrite Hzero.
Qed.

Lemma status_markers_witness :
  build_embed "10.0.0.1" sample_servers sample_net = Ok sample_embed ∧
  (∃ f, f ∈ embed_fields sample_embed ∧
        server_field (sample_status "Race#6" "Touge" "akina" "0/12" 0 8086) = Ok f ∧
        field_name f = "🟢 Race#6") ∧
  online_players [sample_status "Race#6" "Touge" "akina" "0/12" 0 8086] = 0.
Proof.
  assert (server_infos sample_net sample_servers = Ok sample_infos) as Hinfos
    by (vm_compute; reflexivity).
  assert (build_embed "10.0.0.1" sample_servers sample_net = Ok sample_embed) as Hrun
    by (vm_compute; reflexivity).
  destruct (status_markers _ _ _ _ _ Hinfos Hrun) as (_ & Hentry & _ & Hzero).
  split; [exact Hrun|].
  destruct (Hentry (sample_status "Race#6" "Touge" "akina" "0/12" 0 8086))
    as (f & Hf & Hfield).
  - right; left.
  - right; left.
  - destruct (Hzero (sample_status "Race#6" "Touge" "akina" "0/12" 0 8086) f
                eq_refl Hfield) as [Hname Hsum].
    split; [|exact Hsum]. exists f. split; [exact Hf|]. split; [exact Hfield|exact Hname].
Defined.

(** ** Statements about unknown categories *)

Lemma server_infos_net_spa servers :
  server_infos net_spa servers = Ok (spa_status <$> servers).
Proof.
  apply mapM_Ok. induction servers as [|s servers IH]; constructor; [|done].
  reflexivity.
Qed.


(** The configuration the bot ships with uses the fixed categories only. *)
Lemma SERVERS_categories ip :
  Forall (λ s, category s ∈ CATEGORY_ORDER) (SERVERS ip).
Proof. unfold SERVERS, CATEGORY_ORDER. repeat constructor. Qed.

(** Ten endpoints that all answer 5 of 20 players on spa: every status
    reads 5/20 on spa and the title line counts 50 players. *)
Lemma all_servers_five_players :
  server_infos net_spa (SERVERS "10.0.0.1") = Ok (spa_status <$> SERVERS "10.0.0.1") ∧
  ∃ e, build_embed "10.0.0.1" (SERVERS "10.0.0.1") net_spa = Ok e ∧
       embed_description e = "👥 **Total Players:** 50".
Proof.
  split; [apply server_infos_net_spa|].
  destruct (build_embed "10.0.0.1" (SERVERS "10.0.0.1") net_spa) as [e|err] eqn:Hrun.
  - exists e. split; [done|].
    apply build_embed_Ok in Hrun as (infos & snap & Hinfos & Hsnap & Hrender).
    rewrite server_infos_net_spa in Hinfos. injection Hinfos as <-.
    apply aggregate_Ok in Hsnap as (_ & _ & _ & _ & Htotal & _).
    apply render_Ok in Hrender as (_ & _ & _ & ->). by rewrite Htotal.
  - vm_compute in Hrun. discriminate Hrun.
Qed.




(** ** Statements about the publisher *)

(** Runs the primitive commands of a cycle on the state at hand. *)
Ltac run_cmd :=
  unfold except_NotFound, mbind, cmd_bind, read_server_message, channel_send,
    message_edit, write_server_message, emit; simpl.

(** A cycle in which the channel resolves and the embed is built goes on
    to the [try] around the platform calls. *)
Lemma update_servers_publish cfg api net ch e st :
  get_channel api (CHANNEL_ID cfg) = Some ch →
  build_embed (SERVER_IP cfg) (servers cfg) net = Ok e →
  update_servers cfg api net st =
    except_NotFound
      (current ← read_server_message;
       match current with
       | None =>
           m ← channel_send api ch e;
           write_server_message m;;
           emit (LogInfo "Initial status message posted")
       | Some m =>
           message_edit api m e;;
           emit (LogInfo "Status message updated")
       end)
      (m ← channel_send api ch e;
       write_server_message m;;
       emit (LogInfo "Status message recreated (previous message was deleted)")) st.
Proof.
  intros Hch He. unfold update_servers. rewrite Hch.
  unfold mbind at 1, cmd_bind at 1, lift. by rewrite He.
Qed.

(** C4.  With the channel resolved and the embed built: from no stored
    handle, when the send succeeds the cycle makes exactly that one
    platform call and stores the new handle; with a stored handle, when
    the edit succeeds the cycle makes exactly that one call and keeps the
    handle; when the edit reports not found, exactly one send follows in
    the same cycle and, when it succeeds, its message replaces the
    handle; any other failure of the edit leaves the cycle with that
    error after the one edit, the handle unchanged. *)
Theorem publisher_state_machine cfg api net ch e st :
  get_channel api (CHANNEL_ID cfg) = Some ch →
  build_embed (SERVER_IP cfg) (servers cfg) net = Ok e →
  (∀ m, server_message st = None →
        on_send api (events st) ch e = Ok m →
        update_servers cfg api net st =
          (Ok (), {| server_message := Some m;
                     events := events st ++
                       [Send ch e; LogInfo "Initial status message posted"] |})) ∧
  (∀ m, server_message st = Some m →
        on_edit api (events st) m e = Ok () →
        update_servers cfg api net st =
          (Ok (), {| server_message := Some m;
                     events := events st ++
                       [Edit m e; LogInfo "Status message updated"] |})) ∧
  (∀ m m', server_message st = Some m →
        on_edit api (events st) m e = Raise NotFound →
        on_send api (events st ++ [Edit m e]) ch e = Ok m' →
        update_servers cfg api net st =
          (Ok (), {| server_message := Some m';
                     events := events st ++
                       [Edit m e; Send ch e;
                        LogInfo "Status message recreated (previous message was deleted)"] |})) ∧
  (∀ m err, server_message st = Some m →
        on_edit api (events st) m e = Raise err → err ≠ NotFound →
        update_servers cfg api net st =
          (Raise err, {| server_message := Some m; events := events st ++ [Edit m e] |})).
Proof.
  intros Hch He. rewrite (update_servers_publish _ _ _ _ _ _ Hch He).
  destruct st as [current evs]. simpl.
  split; [|split; [|split]].
  - intros m -> Hsend.
    run_cmd. rewrite Hsend. simpl. by rewrite <- app_assoc.
  - intros m -> Hedit.
    run_cmd. rewrite Hedit. simpl. by rewrite <- app_assoc.
  - intros m m' -> Hedit Hsend.
    run_cmd. rewrite Hedit. simpl. rewrite Hsend. simpl. by rewrite <- !app_assoc.
  - intros m err -> Hedit Herr.
    run_cmd. rewrite Hedit. simpl. by destruct err.
Qed.

Lemma publisher_state_machine_witness :
  update_servers sample_config api_healthy sample_net initial_state =
    (Ok (), {| server_message := Some 42%nat;
               events := [Send 7%nat sample_embed;
                          LogInfo "Initial status message posted"] |}) ∧
  update_servers sample_config api_deleted sample_net
      {| server_message := Some 42%nat; events := [] |} =
    (Ok (), {| server_message := Some 43%nat;
               events := [Edit 42%nat sample_embed; Send 7%nat sample_embed;
                          LogInfo "Status message recreated (previous message was deleted)"] |}) ∧
  update_servers sample_config api_forbidden sample_net
      {| server_message := Some 42%nat; events := [] |} =
    (Raise (OtherError "Forbidden"),
     {| server_message := Some 42%nat; events := [Edit 42%nat sample_embed] |}).
Proof.
  assert (build_embed (SERVER_IP sample_config) (servers sample_config) sample_net
          = Ok sample_embed) as Hembed by (vm_compute; reflexivity).
  split; [|split].
  - apply (publisher_state_machine sample_config api_healthy sample_net 7%nat
             sample_embed initial_state eq_refl Hembed); reflexivity.
  - apply (publisher_state_machine sample_config api_deleted sample_net 7%nat
             sample_embed {| server_message := Some 42%nat; events := [] |}
             eq_refl Hembed); reflexivity.
  - apply (publisher_state_machine sample_config api_forbidden sample_net 7%nat
             sample_embed {| server_message := Some 42%nat; events := [] |}
             eq_refl Hembed); [reflexivity|reflexivity|discriminate].
Defined.

(** From no stored handle, a send that itself reports not found is
    caught by the same handler, which sends once more. *)
Lemma absent_send_not_found cfg api net ch e st m :
  get_channel api (CHANNEL_ID cfg) = Some ch →
  build_embed (SERVER_IP cfg) (servers cfg) net = Ok e →
  server_message st = None →
  on_send api (events st) ch e = Raise NotFound →
  on_send api (events st ++ [Send ch e]) ch e = Ok m →
  update_servers cfg api net st =
    (Ok (), {| server_message := Some m;
               events := events st ++
                 [Send ch e; Send ch e;
                  LogInfo "Status message recreated (previous message was deleted)"] |}).
Proof.
  intros Hch He. rewrite (update_servers_publish _ _ _ _ _ _ Hch He).
  destruct st as [current evs]. simpl. intros -> Hfirst Hsecond.
  run_cmd. rewrite Hfirst. simpl. rewrite Hsecond. simpl. by rewrite <- !app_assoc.
Qed.

(** C8.  When the channel cannot be resolved the cycle only logs the
    error: it returns normally, the stored handle is what it was, and no
    call is made on the platform. *)
Theorem unresolved_channel cfg api net st :
  get_channel api (CHANNEL_ID cfg) = None →
  ∃ st',
    update_servers cfg api net st = (Ok (), st') ∧
    server_message st' = server_message st ∧
    events st' = events st ++
      [LogError ("Channel ID " +:+ pretty (CHANNEL_ID cfg) +:+ " not found")] ∧
    calls (events st') = calls (events st).
Proof.
  intros Hch. unfold update_servers. rewrite Hch. unfold emit. eexists.
  split; [reflexivity|]. simpl. split; [done|]. split; [done|].
  unfold calls. rewrite List.filter_app. simpl. by rewrite app_nil_r.
Qed.

Lemma unresolved_channel_witness :
  update_servers sample_config api_no_channel sample_net
      {| server_message := Some 42%nat; events := [] |} =
    (Ok (), {| server_message := Some 42%nat;
               events := [LogError "Channel ID 1234 not found"] |}).
Proof.
  destruct (unresolved_channel sample_config api_no_channel sample_net
              {| server_message := Some 42%nat; events := [] |} eq_refl)
    as (st' & Hrun & _).
  rewrite Hrun. vm_compute in Hrun. injection Hrun as <-. reflexivity.
Defined.

(** An error of [build_embed], and an error of a platform call other
    than not found, leave [update_servers] as they are: nothing in the
    function catches them. *)
Lemma update_servers_propagates cfg api net ch st :
  get_channel api (CHANNEL_ID cfg) = Some ch →
  (∀ err, build_embed (SERVER_IP cfg) (servers cfg) net = Raise err →
          update_servers cfg api net st = (Raise err, st)) ∧
  (∀ e err, build_embed (SERVER_IP cfg) (servers cfg) net = Ok e →
            server_message st = None →
            on_send api (events st) ch e = Raise err → err ≠ NotFound →
            fst (update_servers cfg api net st) = Raise err).
Proof.
  intros Hch. split.
  - intros err Herr. unfold update_servers. rewrite Hch.
    unfold mbind at 1, cmd_bind at 1, lift. by rewrite Herr.
  - intros e err He. rewrite (update_servers_publish _ _ _ _ _ _ Hch He).
    destruct st as [current evs]. simpl. intros -> Hsend Hne.
    run_cmd. rewrite Hsend. simpl. by destruct err.
Qed.

(** ** The document as a function of the statuses *)

Lemma server_field_entry i : numeric i → server_field i = Ok (entry_of i).
Proof.
  intros [n Hn]. unfold server_field, entry_of.
  by rewrite (players_numeric _ _ Hn), Hn.
Qed.

Lemma mapM_server_field l :
  Forall numeric l → mapM server_field l = Ok (entry_of <$> l).
Proof.
  intros Hnum. apply mapM_Ok. induction Hnum as [|i l Hi _ IH]; constructor; [|done].
  by apply server_field_entry.
Qed.

Lemma online_players_nonneg l : 0 ≤ online_players l.
Proof.
  induction l as [|i l IH]; [done|]. rewrite online_players_cons.
  destruct (0 <? players i) eqn:Hpos; [apply Z.ltb_lt in Hpos|]; lia.
Qed.

Lemma online_players_filter_le (P : info → Prop) `{∀ i, Decision (P i)} l :
  online_players (filter P l) ≤ online_players l.
Proof.
  induction l as [|i l IH]; [done|]. rewrite filter_cons.
  destruct (decide (P i)); rewrite !online_players_cons.
  - lia.
  - destruct (0 <? players i) eqn:Hpos; [apply Z.ltb_lt in Hpos|]; lia.
Qed.

Lemma total_of_range infos snap cat :
  aggregate infos = Ok snap → 0 ≤ total_of snap cat ≤ total_players snap.
Proof.
  intros (_ & _ & _ & Htotals & Htotal & _)%aggregate_Ok.
  rewrite Htotals, Htotal. split.
  - apply online_players_nonneg.
  - apply online_players_filter_le.
Qed.

Lemma category_fields_section infos snap cat fs :
  aggregate infos = Ok snap →
  category_fields snap cat = Ok fs →
  fs = section_of infos (category_totals snap) cat.
Proof.
  intros (Hnum & Hgroup & _)%aggregate_Ok (_ & entries & Hentries & ->)%category_fields_Ok.
  unfold section_of. f_equal. f_equal. rewrite Hgroup in Hentries.
  assert (mapM server_field (filter (in_category cat) infos) = Ok entries) as Hrun
    by by apply mapM_Ok.
  rewrite mapM_server_field in Hrun; [by injection Hrun|].
  apply Forall_forall. intros i [_ Hi]%list_elem_of_filter.
  by eapply Forall_forall in Hnum.
Qed.

Lemma category_fields_total infos snap cat :
  aggregate infos = Ok snap →
  total_players snap < 10 ^ int_max_str_digits →
  category_fields snap cat = Ok (section_of infos (category_totals snap) cat).
Proof.
  intros Hsnap Hsize. pose proof (total_of_range infos snap cat Hsnap) as Hrange.
  apply aggregate_Ok in Hsnap as (Hnum & Hgroup & _).
  unfold category_fields, section_of. fold (total_of snap cat) (group_of snap cat).
  rewrite (proj2 (format_int_Ok (total_of snap cat) _)) by (split; [lia|done]).
  simpl. rewrite Hgroup, mapM_server_field; [done|].
  apply Forall_forall. intros i [_ Hi]%list_elem_of_filter.
  by eapply Forall_forall in Hnum.
Qed.

(** Once the loop has returned, rendering returns when the grand total
    can be written. *)
Lemma render_aggregate ip infos snap :
  aggregate infos = Ok snap →
  total_players snap < 10 ^ int_max_str_digits →
  ∃ e, render ip snap = Ok e ∧
       embed_fields e = concat (section_of infos (category_totals snap) <$> CATEGORY_ORDER) ∧
       embed_description e = "👥 **Total Players:** " +:+ pretty (total_players snap).
Proof.
  intros Hsnap Hsize.
  pose proof (total_of_range infos snap "Drift" Hsnap) as Hrange.
  assert (mapM (category_fields snap) CATEGORY_ORDER
          = Ok (section_of infos (category_totals snap) <$> CATEGORY_ORDER)) as Hsections.
  { apply mapM_Ok. induction CATEGORY_ORDER as [|cat cats IH]; constructor; [|done].
    by apply category_fields_total. }
  unfold render.
  rewrite (proj2 (format_int_Ok (total_players snap) _)) by (split; [lia|done]).
  unfold mbind at 1, outcome_bind at 1. rewrite Hsections.
  simpl. eauto.
Qed.

(** The loop returns when every count is a number and every counted
    status has a total to go to. *)
Lemma aggregate_from_total acc l :
  Forall numeric l →
  Forall (λ i, 0 < players i → info_category i ∈ dom (category_totals acc)) l →
  ∃ snap, foldM aggregate_step acc l = Ok snap.
Proof.
  revert acc. induction l as [|i l IH]; intros acc; simpl; [eauto|].
  intros [Hi Hnum]%Forall_cons [Hkey Hkeys]%Forall_cons.
  destruct (aggregate_step acc i) as [acc'|err] eqn:Hstep; simpl.
  - apply IH; [done|].
    apply aggregate_step_Ok in Hstep as (_ & _ & Hdom & _). by rewrite Hdom.
  - apply aggregate_step_Raise in Hstep as [[Hnot _]|(Hpos & Hout & _)]; [done|].
    by destruct Hout; apply Hkey.
Qed.

Lemma aggregate_total infos :
  Forall numeric infos → Forall has_total infos → ∃ snap, aggregate infos = Ok snap.
Proof.
  intros Hnum Htotal. apply aggregate_from_total; [done|].
  eapply Forall_impl; [exact Htotal|]. intros i Hi Hpos.
  rewrite dom_totals_empty. apply elem_of_list_to_set. by apply Hi.
Qed.

(** ** Statements about [build_embed] as a whole *)

(** X1.  For endpoints that report whole numbers, [build_embed] returns
    a document exactly when every status has a number for its count,
    every status whose count is above 0 has one of the fixed categories,
    and the sum of the counts above 0 has at most 4300 digits, the most
    [str] writes of an [int]; otherwise it raises. *)
Theorem build_embed_returns_iff ip servers net infos :
  server_infos net servers = Ok infos →
  (∃ e, build_embed ip servers net = Ok e) ↔
  Forall numeric infos ∧ Forall has_total infos ∧
  online_players infos < 10 ^ int_max_str_digits.
Proof.
  intros Hinfos. split.
  - intros (e & (infos' & snap & Hinfos' & Hsnap & Hrender)%build_embed_Ok).
    rewrite Hinfos in Hinfos'. injection Hinfos' as <-.
    apply render_Ok_total in Hrender.
    apply aggregate_Ok in Hsnap as (Hnum & _ & _ & _ & Htotal & Hkeys).
    split; [done|]. split; [done|]. rewrite <- Htotal. lia.
  - intros (Hnum & Htotal & Hsize).
    destruct (aggregate_total infos Hnum Htotal) as [snap Hsnap].
    destruct (render_aggregate ip infos snap Hsnap) as (e & Hrender & _).
    { by apply aggregate_Ok in Hsnap as (_ & _ & _ & _ & -> & _). }
    exists e. apply build_embed_Ok. eauto.
Qed.

Lemma build_embed_returns_iff_witness :
  (∃ e, build_embed "10.0.0.1" sample_servers sample_net = Ok e) ∧
  Forall numeric sample_infos ∧ Forall has_total sample_infos ∧
  online_players sample_infos < 10 ^ int_max_str_digits.
Proof.
  assert (server_infos sample_net sample_servers = Ok sample_infos) as Hinfos
    by (vm_compute; reflexivity).
  assert (∃ e, build_embed "10.0.0.1" sample_servers sample_net = Ok e) as Hrun
    by (exists sample_embed; vm_compute; reflexivity).
  split; [exact Hrun|].
  exact (proj1 (build_embed_returns_iff "10.0.0.1" sample_servers sample_net
                  sample_infos Hinfos) Hrun).
Defined.

(** The document [build_embed] returns, from the snapshot of its loop. *)
Lemma build_embed_document ip servers net infos e :
  server_infos net servers = Ok infos →
  build_embed ip servers net = Ok e →
  ∃ snap, aggregate infos = Ok snap ∧
          embed_fields e = concat (section_of infos (category_totals snap) <$> CATEGORY_ORDER) ∧
          embed_description e = "👥 **Total Players:** " +:+ pretty (total_players snap).
Proof.
  intros Hinfos (infos' & snap & Hinfos' & Hsnap & Hrender)%build_embed_Ok.
  rewrite Hinfos in Hinfos'. injection Hinfos' as <-.
  apply render_Ok in Hrender as (sections & Hsections & Hfields & Hdesc).
  exists snap. split; [done|]. split; [|done]. rewrite Hfields. f_equal.
  clear Hfields. induction Hsections as [|cat fs cats sections Hfs _ IH]; [done|].
  rewrite fmap_cons. f_equal; [|done]. by eapply category_fields_section.
Qed.



Lemma length_filter_categories (cats : list string) (infos : list info) :
  NoDup cats →
  length (filter (λ i, info_category i ∈ cats) infos)
    = sum_list ((λ cat, length (filter (in_category cat) infos)) <$> cats).
Proof.
  intros Hnodup. induction infos as [|i infos IH].
  - induction cats as [|c cats IHc]; [done|].
    apply NoDup_cons in Hnodup as [_ Hnodup]. specialize (IHc Hnodup).
    rewrite fmap_cons. simpl in *. done.
  - rewrite filter_cons.
    assert (sum_list ((λ cat, length (filter (in_category cat) (i :: infos))) <$> cats)
            = ((if decide (info_category i ∈ cats) then 1 else 0)
               + sum_list ((λ cat, length (filter (in_category cat) infos)) <$> cats))%nat)
      as ->.
    { clear IH. induction Hnodup as [|c cats Hc Hnodup IHc].
      - rewrite decide_False; [done|]. by intros ?%elem_of_nil.
      - rewrite !fmap_cons. simpl sum_list. rewrite IHc, filter_cons.
        unfold in_category at 1.
        destruct (decide (info_category i = c)) as [Heq|Hne];
          destruct (decide (info_category i ∈ cats)) as [Hin|Hout];
          destruct (decide (info_category i ∈ c :: cats)) as [Hhere|Hnot];
          simpl; try lia; exfalso;
          first [ by subst c
                | by apply Hnot; right
                | by apply Hnot; subst c; left
                | by apply elem_of_cons in Hhere as [?|?] ]. }
    destruct (decide (info_category i ∈ cats)); simpl; by rewrite IH.
Qed.

Lemma filter_all {A} (P : A → Prop) `{∀ x, Decision (P x)} (l : list A) :
  Forall P l → filter P l = l.
Proof.
  induction 1 as [|x l Hx _ IH]; [done|].
  by rewrite filter_cons, decide_True, IH.
Qed.

Lemma length_sections infos totals (cats : list string) :
  length (concat (section_of infos totals <$> cats))
    = (2 * length cats
       + sum_list ((λ cat, length (filter (in_category cat) infos)) <$> cats))%nat.
Proof.
  induction cats as [|c cats IH]; [done|].
  rewrite !fmap_cons. simpl concat.
  rewrite length_cons, !length_app, IH, length_fmap. simpl. lia.
Qed.

(** X3.  The document has two fields per fixed category and one per
    status of a fixed category: a status of any other category is built
    into no entry.  So when every configured category is fixed every
    server is listed, and with the server list the bot ships with the
    document has 16 fields whatever the endpoints answer. *)
Theorem document_size ip servers net infos e :
  server_infos net servers = Ok infos →
  build_embed ip servers net = Ok e →
  length (embed_fields e)
    = (6 + length (filter (λ i, info_category i ∈ CATEGORY_ORDER) infos))%nat ∧
  (Forall (λ s, category s ∈ CATEGORY_ORDER) servers →
   length (embed_fields e) = (6 + length servers)%nat) ∧
  (servers = SERVERS ip → length (embed_fields e) = 16%nat).
Proof.
  intros Hinfos Hrun.
  destruct (build_embed_document _ _ _ _ _ Hinfos Hrun) as (snap & _ & Hfields & _).
  assert (length (embed_fields e)
          = (6 + length (filter (λ i, info_category i ∈ CATEGORY_ORDER) infos))%nat) as Hsize.
  { rewrite Hfields, length_sections, <- length_filter_categories
      by apply CATEGORY_ORDER_NoDup. done. }
  assert (Forall (λ s, category s ∈ CATEGORY_ORDER) servers →
          length (embed_fields e) = (6 + length servers)%nat) as Hall.
  { intros Hconfig. rewrite Hsize. f_equal.
    apply mapM_Ok in Hinfos.
    rewrite (Forall2_length _ _ _ Hinfos). f_equal. apply filter_all.
    apply Forall_forall. intros i [k Hk]%list_elem_of_lookup.
    destruct (Forall2_lookup_r _ _ _ _ _ Hinfos Hk) as (s & Hs & Hi).
    destruct (get_server_info_descriptor _ _ _ Hi) as (_ & -> & _).
    eapply Forall_forall in Hconfig; [done|]. apply list_elem_of_lookup. eauto. }
  split; [done|]. split; [done|].
  intros ->. rewrite Hall; [done|apply SERVERS_categories].
Qed.

Lemma document_size_witness :
  length (embed_fields sample_embed) = 10%nat.
Proof.
  assert (server_infos sample_net sample_servers = Ok sample_infos) as Hinfos
    by (vm_compute; reflexivity).
  assert (build_embed "10.0.0.1" sample_servers sample_net = Ok sample_embed) as Hrun
    by (vm_compute; reflexivity).
  apply (proj1 (proj2 (document_size _ _ _ _ _ Hinfos Hrun))).
  unfold sample_servers, CATEGORY_ORDER. repeat constructor.
Defined.

(** Statuses that are not counted leave the totals where they were. *)
Lemma aggregate_from_not_counted acc l :
  Forall (λ i, numeric i ∧ players i ≤ 0) l →
  ∃ snap, foldM aggregate_step acc l = Ok snap ∧
          category_totals snap = category_totals acc ∧
          total_players snap = total_players acc.
Proof.
  revert acc. induction l as [|i l IH]; intros acc; simpl; [eauto|].
  intros [[[n Hn] Hle] Hrest]%Forall_cons.
  rewrite (players_numeric _ _ Hn) in Hle.
  destruct (aggregate_step_not_counted acc i n Hn Hle) as (acc' & -> & Htotals & Htotal).
  simpl. destruct (IH acc' Hrest) as (snap & -> & Htotals' & Htotal').
  exists snap. split; [done|]. split; congruence.
Qed.

Lemma server_infos_all_failed net servers :
  (∀ s, s ∈ servers → probe_failed net s) →
  server_infos net servers = Ok (offline <$> servers).
Proof.
  intros Hfail. apply mapM_Ok.
  induction servers as [|s servers IH]; constructor.
  - destruct (Hfail s) as [err Herr]; [by left|]. by eapply get_server_info_failed.
  - apply IH. intros s' Hs'. apply Hfail. by right.
Qed.

(** X4.  When every probe of a cycle fails the document is still built,
    whatever the configured categories: its description counts 0
    players, every header shows the total 0, and the entry of every
    listed server carries the offline marker and the ratio 0/0. *)
Theorem total_outage ip servers net :
  (∀ s, s ∈ servers → probe_failed net s) →
  ∃ e, build_embed ip servers net = Ok e ∧
       embed_description e = "👥 **Total Players:** 0" ∧
       embed_fields e
         = concat (section_of (offline <$> servers) (category_totals empty_snapshot)
                     <$> CATEGORY_ORDER) ∧
       (∀ cat, cat ∈ CATEGORY_ORDER → category_totals empty_snapshot !! cat = Some 0) ∧
       (∀ s, field_name (entry_of (offline s)) = offline_marker +:+ " " +:+ name s ∧
             info_players (offline s) = "0/0").
Proof.
  intros Hfail. pose proof (server_infos_all_failed _ _ Hfail) as Hinfos.
  destruct (aggregate_from_not_counted empty_snapshot (offline <$> servers))
    as (snap & Hsnap & Htotals & Htotal).
  { apply Forall_fmap, Forall_forall. intros s _. split; [by exists (-1)|].
    unfold players. simpl. lia. }
  destruct (render_aggregate ip _ snap Hsnap) as (e & Hrender & Hfields & Hdesc).
  { by rewrite Htotal. }
  exists e. split; [apply build_embed_Ok; eauto|].
  split; [by rewrite Hdesc, Htotal|]. split; [by rewrite Hfields, Htotals|].
  split; [|done].
  intros cat Hcat. unfold empty_snapshot, CATEGORY_ORDER in *. simpl.
  rewrite !elem_of_cons, elem_of_nil in Hcat.
  destruct Hcat as [->|[->|[->|[]]]]; reflexivity.
Qed.

Lemma total_outage_witness :
  ∃ e, build_embed "10.0.0.1" (sample_servers ++ [rally_server]) net_down = Ok e ∧
       embed_description e = "👥 **Total Players:** 0".
Proof.
  destruct (total_outage "10.0.0.1" (sample_servers ++ [rally_server]) net_down)
    as (e & Hrun & Hdesc & _).
  - intros s _. exists (OtherError "TimeoutError"). reflexivity.
  - exists e. split; [exact Hrun|exact Hdesc].
Defined.

(** ** More about the totals *)

Lemma online_players_perm l l' : l ≡ₚ l' → online_players l = online_players l'.
Proof.
  induction 1 as [|i l l' _ IH|i j l|l1 l2 l3 _ IH1 _ IH2];
    rewrite ?online_players_cons; [done|lia|lia|congruence].
Qed.

(** For whole counts the totals do not depend on the order of the
    statuses. *)
Lemma aggregate_perm infos infos' snap :
  aggregate infos = Ok snap → infos ≡ₚ infos' →
  ∃ snap', aggregate infos' = Ok snap' ∧
           category_totals snap' = category_totals snap ∧
           total_players snap' = total_players snap ∧
           ∀ cat, group_of snap' cat ≡ₚ group_of snap cat.
Proof.
  intros Hsnap Hperm.
  pose proof Hsnap as (Hnum & Hgroup & Hdom & Htotals & Htotal & Hkeys)%aggregate_Ok.
  destruct (aggregate_total infos') as [snap' Hsnap'].
  { by rewrite <- Hperm. }
  { unfold has_total. by rewrite <- Hperm. }
  exists snap'. split; [done|].
  apply aggregate_Ok in Hsnap' as (_ & Hgroup' & Hdom' & Htotals' & Htotal' & _).
  split; [|split].
  - apply map_eq. intros cat.
    destruct (category_totals snap' !! cat) as [t'|] eqn:Ht';
      destruct (category_totals snap !! cat) as [t|] eqn:Ht.
    + f_equal. pose proof (Htotals cat) as H1. pose proof (Htotals' cat) as H2.
      unfold total_of in H1, H2. rewrite Ht in H1. rewrite Ht' in H2. simpl in *.
      rewrite H1, H2. apply online_players_perm. by rewrite Hperm.
    + exfalso. apply not_elem_of_dom in Ht. apply Ht. rewrite Hdom, <- Hdom'.
      apply elem_of_dom. eauto.
    + exfalso. apply not_elem_of_dom in Ht'. apply Ht'. rewrite Hdom', <- Hdom.
      apply elem_of_dom. eauto.
    + done.
  - rewrite Htotal, Htotal'. by apply online_players_perm.
  - intros cat. by rewrite Hgroup, Hgroup', Hperm.
Qed.

(** ** A count that is not a number *)

Lemma get_server_info_object net s status items p :
  net (info_url s) = Response status (Ok (JDict items)) →
  default (PStr "Unknown") (items !! "track") = PStr p →
  ∃ i, get_server_info net s = Ok i ∧
       info_num_players i = default (PInt 0) (items !! "clients") ∧
       info_map i = posix_basename p.
Proof.
  intros Hnet Htrack. unfold get_server_info, probe_body. rewrite Hnet. simpl.
  rewrite Htrack. simpl. eauto.
Qed.



(** ** The map name *)

Lemma rfind_present c dir rest : 0 ≤ rfind c (dir +:+ String c rest).
Proof.
  pose proof (rfind_lower c (dir +:+ String c rest)) as Hlow.
  assert (rfind c (dir +:+ String c rest) ≠ -1) as Hne; [|lia].
  intros Habs%rfind_absent. apply Habs. clear.
  induction dir as [|a dir IH]; simpl; [by left|by right].
Qed.

Lemma posix_basename_whole p :
  ¬ In "/"%char (list_ascii_of_string p) → posix_basename p = p.
Proof.
  intros Habs%rfind_absent. unfold posix_basename. by rewrite Habs.
Qed.

Lemma posix_basename_join dir b :
  ¬ In "/"%char (list_ascii_of_string b) →
  posix_basename (dir +:+ "/" +:+ b) = b.
Proof.
  intros Hb. induction dir as [|a dir IH].
  - change (EmptyString +:+ "/" +:+ b) with (String "/" b).
    rewrite posix_basename_String.
    apply rfind_absent in Hb. rewrite Hb. done.
  - change (String a dir +:+ "/" +:+ b) with (String a (dir +:+ String "/" b)).
    rewrite posix_basename_String.
    pose proof (rfind_present "/" dir b) as Hpos. apply Z.leb_le in Hpos.
    by rewrite Hpos.
Qed.

(** X8.  The map name shown for a server that answers is what follows
    the last slash of its [track] and nothing else: the whole track when
    it has no slash, and the empty text when the track ends with a
    slash. *)
Theorem probe_map_name net s status items p i :
  net (info_url s) = Response status (Ok (JDict items)) →
  items !! "track" = Some (PStr p) →
  get_server_info net s = Ok i →
  (∀ dir b, p = dir +:+ "/" +:+ b → ¬ In "/"%char (list_ascii_of_string b) →
            info_map i = b) ∧
  (¬ In "/"%char (list_ascii_of_string p) → info_map i = p) ∧
  (∀ dir, p = dir +:+ "/" → info_map i = EmptyString).
Proof.
  intros Hnet Htrack Hrun.
  destruct (get_server_info_object net s status items p Hnet) as (i' & Hrun' & _ & Hmap).
  { by rewrite Htrack. }
  rewrite Hrun in Hrun'. injection Hrun' as <-. rewrite Hmap.
  split; [|split].
  - intros dir b -> Hb. by apply posix_basename_join.
  - apply posix_basename_whole.
  - intros dir ->. apply (posix_basename_join dir EmptyString). simpl. tauto.
Qed.

Lemma probe_map_name_witness :
  ∃ i, get_server_info net_trailing_slash sample_server = Ok i ∧
       info_map i = EmptyString.
Proof.
  destruct (get_server_info_total net_trailing_slash sample_server) as [i Hi].
  exists i. split; [exact Hi|].
  destruct (probe_map_name net_trailing_slash sample_server 200
              (list_to_map [("clients", PInt 5); ("maxclients", PInt 20);
                            ("track", PStr "content/tracks/")])
              "content/tracks/" i) as (_ & _ & Hslash).
  - reflexivity.
  - vm_compute. reflexivity.
  - exact Hi.
  - apply (Hslash "content/tracks"). reflexivity.
Defined.

(** ** The ways through one cycle *)

(** [update_servers] takes one of the six ways of [cycle]. *)
Lemma update_servers_cycle cfg api net st :
  cycle cfg api net st (update_servers cfg api net st).
Proof.
  destruct (get_channel api (CHANNEL_ID cfg)) as [ch|] eqn:Hch.
  2: { unfold update_servers. rewrite Hch. by apply cycle_no_channel. }
  destruct (build_embed (SERVER_IP cfg) (servers cfg) net) as [e|err] eqn:He.
  2: { rewrite (proj1 (update_servers_propagates cfg api net ch st Hch) err He).
       by eapply cycle_no_document. }
  rewrite (update_servers_publish _ _ _ _ _ _ Hch He).
  destruct (first_answer api st ch e) as [m|err] eqn:Hfirst.
  - replace (except_NotFound _ _ st) with
      (Ok (), {| server_message := Some m;
                 events := events st ++ [first_call st ch e; LogInfo (first_log st)] |});
      [by eapply cycle_published|].
    unfold first_answer, first_call, first_log in *. destruct st as [[m0|] evs]; simpl in *.
    + destruct (on_edit api evs m0 e) as [[]|] eqn:Hedit; simpl in Hfirst; [|done].
      injection Hfirst as <-. run_cmd. rewrite Hedit. simpl. by rewrite <- app_assoc.
    + run_cmd. rewrite Hfirst. simpl. by rewrite <- app_assoc.
  - assert (err = NotFound ∨ err ≠ NotFound) as [->|Hne]
      by (destruct err; (by left) || by right).
    + destruct (on_send api (events st ++ [first_call st ch e]) ch e) as [m|err] eqn:Hsend.
      * replace (except_NotFound _ _ st) with
          (Ok (), {| server_message := Some m;
                     events := events st ++
                       [first_call st ch e; Send ch e;
                        LogInfo "Status message recreated (previous message was deleted)"] |});
          [by eapply cycle_recreated|].
        unfold first_answer, first_call in *. destruct st as [[m0|] evs]; simpl in *.
        -- destruct (on_edit api evs m0 e) as [[]|err'] eqn:Hedit; simpl in Hfirst; [done|].
           injection Hfirst as ->. run_cmd. rewrite Hedit. simpl. rewrite Hsend. simpl.
           by rewrite <- !app_assoc.
        -- run_cmd. rewrite Hfirst. simpl. rewrite Hsend. simpl. by rewrite <- !app_assoc.
      * replace (except_NotFound _ _ st) with
          (Raise err : outcome unit,
           {| server_message := server_message st;
              events := events st ++ [first_call st ch e; Send ch e] |});
          [by eapply cycle_recreate_failed|].
        unfold first_answer, first_call in *. destruct st as [[m0|] evs]; simpl in *.
        -- destruct (on_edit api evs m0 e) as [[]|err'] eqn:Hedit; simpl in Hfirst; [done|].
           injection Hfirst as ->. run_cmd. rewrite Hedit. simpl. rewrite Hsend. simpl.
           by rewrite <- !app_assoc.
        -- run_cmd. rewrite Hfirst. simpl. rewrite Hsend. simpl. by rewrite <- !app_assoc.
    + replace (except_NotFound _ _ st) with
        (Raise err : outcome unit,
         {| server_message := server_message st;
            events := events st ++ [first_call st ch e] |});
        [by eapply cycle_call_failed|].
      unfold first_answer, first_call in *. destruct st as [[m0|] evs]; simpl in *.
      * destruct (on_edit api evs m0 e) as [[]|err'] eqn:Hedit; simpl in Hfirst; [done|].
        injection Hfirst as ->. run_cmd. rewrite Hedit. simpl. by destruct err.
      * run_cmd. rewrite Hfirst. simpl. by destruct err.
Qed.

(** ** What a cycle never does *)

Lemma is_call_first_call st ch e : is_call (first_call st ch e) = true.
Proof. unfold first_call. by destruct (server_message st). Qed.

Lemma first_answer_NotFound_stored api st ch e m :
  server_message st = Some m → first_answer api st ch e = Raise NotFound →
  on_edit api (events st) m e = Raise NotFound.
Proof.
  unfold first_answer. intros ->.
  destruct (on_edit api (events st) m e) as [[]|err]; simpl; [discriminate|].
  by intros [= ->].
Qed.

(** X9.  A cycle never loses the stored handle: a handle that was stored
    is still stored afterwards, a cycle that ends with an error leaves
    the handle exactly as it was, and a cycle that returns with the
    channel resolved leaves a handle stored. *)
Theorem handle_kept cfg api net st r st' :
  update_servers cfg api net st = (r, st') →
  (is_Some (server_message st) → is_Some (server_message st')) ∧
  (∀ err, r = Raise err → server_message st' = server_message st) ∧
  (r = Ok () → is_Some (get_channel api (CHANNEL_ID cfg)) →
   is_Some (server_message st')).
Proof.
  intros Hrun. pose proof (update_servers_cycle cfg api net st) as Hcycle.
  rewrite Hrun in Hcycle.
  inversion Hcycle as [Hch|ch err Hch He|ch e m Hch He Hfirst|ch e m Hch He Hfirst Hsend
                       |ch e err Hch He Hfirst Hsend|ch e err Hch He Hfirst Hne];
    subst; simpl; (split; [|split]); try done; try by eauto.
  intros _ [ch Hch']. congruence.
Qed.

Lemma handle_kept_witness :
  is_Some (server_message
             (snd (update_servers sample_config api_forbidden sample_net
                     {| server_message := Some 42%nat; events := [] |}))).
Proof.
  destruct (update_servers sample_config api_forbidden sample_net
              {| server_message := Some 42%nat; events := [] |}) as [r st'] eqn:Hrun.
  apply (proj1 (handle_kept sample_config api_forbidden sample_net _ r st' Hrun)).
  simpl. eauto.
Defined.

(** X10.  A cycle only adds to the events, and makes at most two calls
    on the platform: none, or the first call (the send when no handle is
    stored, else the edit of the stored handle), or the first call
    followed by one send; every call carries the document built in this
    cycle. *)
Theorem calls_per_cycle cfg api net st r st' :
  update_servers cfg api net st = (r, st') →
  ∃ new, events st' = events st ++ new ∧
         (calls new = [] ∨
          ∃ ch e, get_channel api (CHANNEL_ID cfg) = Some ch ∧
                  build_embed (SERVER_IP cfg) (servers cfg) net = Ok e ∧
                  (calls new = [first_call st ch e] ∨
                   calls new = [first_call st ch e; Send ch e])).
Proof.
  intros Hrun. pose proof (update_servers_cycle cfg api net st) as Hcycle.
  rewrite Hrun in Hcycle.
  inversion Hcycle as [Hch|ch err Hch He|ch e m Hch He Hfirst|ch e m Hch He Hfirst Hsend
                       |ch e err Hch He Hfirst Hsend|ch e err Hch He Hfirst Hne];
    subst; simpl; eexists; (split; [try reflexivity|]).
  - by left.
  - by rewrite app_nil_r.
  - by left.
  - right. exists ch, e. split; [done|]. split; [done|]. left.
    unfold calls. simpl. by rewrite is_call_first_call.
  - right. exists ch, e. split; [done|]. split; [done|]. right.
    unfold calls. simpl. by rewrite is_call_first_call.
  - right. exists ch, e. split; [done|]. split; [done|]. right.
    unfold calls. simpl. by rewrite is_call_first_call.
  - right. exists ch, e. split; [done|]. split; [done|]. left.
    unfold calls. simpl. by rewrite is_call_first_call.
Qed.

Lemma calls_per_cycle_witness :
  ∃ new,
    events (snd (update_servers sample_config api_deleted sample_net
                   {| server_message := Some 42%nat; events := [] |})) = [] ++ new ∧
    calls new = [Edit 42%nat sample_embed; Send 7%nat sample_embed].
Proof.
  destruct (update_servers sample_config api_deleted sample_net
              {| server_message := Some 42%nat; events := [] |}) as [r st'] eqn:Hrun.
  destruct (calls_per_cycle sample_config api_deleted sample_net _ r st' Hrun)
    as (new & Hevents & Hcalls).
  exists new. split; [exact Hevents|].
  vm_compute in Hrun. injection Hrun as <- <-. simpl in Hevents. subst new.
  reflexivity.
Defined.

(** X11.  A cycle sends a new message only when no handle was stored
    when it began, or when the platform answered not found to the edit of
    the stored one: it never posts a second message beside one it could
    still edit. *)
Theorem no_duplicate_message cfg api net st r st' ch e :
  update_servers cfg api net st = (r, st') →
  Send ch e ∈ new_events st st' →
  server_message st = None ∨
  ∃ m, server_message st = Some m ∧ on_edit api (events st) m e = Raise NotFound.
Proof.
  intros Hrun. pose proof (update_servers_cycle cfg api net st) as Hcycle.
  rewrite Hrun in Hcycle. unfold new_events.
  destruct (server_message st) as [m0|] eqn:Hstored; [|by left].
  inversion Hcycle as [Hch|ch' err Hch He|ch' e' m Hch He Hfirst|ch' e' m Hch He Hfirst Hsend
                       |ch' e' err Hch He Hfirst Hsend|ch' e' err Hch He Hfirst Hne];
    subst; simpl; rewrite ?drop_app_length, ?drop_all;
    unfold first_call; rewrite ?Hstored;
    rewrite ?elem_of_cons, ?elem_of_nil; intros Hin; right; exists m0; (split; [done|]).
  - by destruct Hin as [?|[]].
  - done.
  - by destruct Hin as [?|[?|[]]].
  - destruct Hin as [?|[[= -> ->]|[?|[]]]]; try done.
    by eapply first_answer_NotFound_stored.
  - destruct Hin as [?|[[= -> ->]|[]]]; try done.
    by eapply first_answer_NotFound_stored.
  - by destruct Hin as [?|[]].
Qed.

Lemma no_duplicate_message_witness :
  on_edit api_deleted [] 42%nat sample_embed = Raise NotFound.
Proof.
  destruct (update_servers sample_config api_deleted sample_net
              {| server_message := Some 42%nat; events := [] |}) as [r st'] eqn:Hrun.
  destruct (no_duplicate_message sample_config api_deleted sample_net
              {| server_message := Some 42%nat; events := [] |} r st'
              7%nat sample_embed Hrun) as [Hnone|(m & Hm & Hedit)].
  - vm_compute in Hrun. injection Hrun as <- <-. vm_compute. right; left.
  - discriminate Hnone.
  - simpl in Hm. injection Hm as <-. exact Hedit.
Defined.

(** ** Cycles that follow one another *)

(** One cycle, as far as the statement on several cycles needs it. *)
Lemma handle_kept_cycle cfg api net st r st' :
  update_servers cfg api net st = (r, st') →
  (is_Some (server_message st) → is_Some (server_message st')) ∧
  ∃ new, events st' = events st ++ new ∧ (length (calls new) ≤ 2)%nat.
Proof.
  intros Hrun. pose proof (update_servers_cycle cfg api net st) as Hcycle.
  rewrite Hrun in Hcycle.
  inversion Hcycle as [Hch|ch err Hch He|ch e m Hch He Hfirst|ch e m Hch He Hfirst Hsend
                       |ch e err Hch He Hfirst Hsend|ch e err Hch He Hfirst Hne];
    subst; simpl; (split; [by eauto|]); eexists; (split; [try reflexivity|]);
    rewrite ?app_nil_r; try done;
    unfold calls; simpl; rewrite ?is_call_first_call; simpl; lia.
Qed.

Lemma run_cycles_cons cfg api net rest st :
  run_cycles cfg ((api, net) :: rest) st =
    match update_servers cfg api net st with
    | (Ok _, st1) => run_cycles cfg rest st1
    | (Raise err, st1) => (Raise err, st1)
    end.
Proof. reflexivity. Qed.

Lemma calls_app evs1 evs2 : calls (evs1 ++ evs2) = calls evs1 ++ calls evs2.
Proof. apply List.filter_app. Qed.

(** X12.  Over any number of cycles that follow one another, each with
    its own network and platform behaviour: a stored handle is never
    lost, the events only grow, and at most two calls per cycle are made
    on the platform. *)
Theorem cycles_invariants cfg envs st r st' :
  run_cycles cfg envs st = (r, st') →
  (is_Some (server_message st) → is_Some (server_message st')) ∧
  ∃ new, events st' = events st ++ new ∧
         (length (calls new) ≤ 2 * length envs)%nat.
Proof.
  revert st. induction envs as [|[api net] envs IH]; intros st.
  - intros [= <- <-]. split; [done|]. exists []. by rewrite app_nil_r.
  - rewrite run_cycles_cons.
    destruct (update_servers cfg api net st) as [r1 st1] eqn:Hfirst.
    destruct (handle_kept_cycle cfg api net st r1 st1 Hfirst) as (Hkept & new1 & Hnew1 & Hcalls1).
    destruct r1 as [[]|err].
    + intros (Hkept' & new2 & Hnew2 & Hcalls2)%IH. split; [tauto|].
      exists (new1 ++ new2). split; [by rewrite Hnew2, Hnew1, app_assoc|].
      rewrite calls_app, length_app. simpl. lia.
    + intros [= <- <-]. split; [done|]. exists new1. split; [done|]. simpl. lia.
Qed.

Lemma cycles_invariants_witness :
  is_Some (server_message
             (snd (run_cycles sample_config
                     [(api_forbidden, net_down); (api_deleted, sample_net)]
                     {| server_message := Some 42%nat; events := [] |}))).
Proof.
  destruct (run_cycles sample_config
              [(api_forbidden, net_down); (api_deleted, sample_net)]
              {| server_message := Some 42%nat; events := [] |}) as [r st'] eqn:Hrun.
  apply (proj1 (cycles_invariants sample_config _ _ r st' Hrun)).
  simpl. eauto.
Defined.

(** X13.  Self-healing over two cycles: when the first cycle posts the
    message and the message is then deleted, so that the second cycle's
    edit is answered not found, the second cycle posts the current
    document anew and the new message becomes the handle; the platform
    saw send, edit, send and nothing else. *)
Theorem recreate_after_delete cfg api1 net1 api2 net2 st ch1 e1 m ch2 e2 m' :
  server_message st = None →
  get_channel api1 (CHANNEL_ID cfg) = Some ch1 →
  build_embed (SERVER_IP cfg) (servers cfg) net1 = Ok e1 →
  on_send api1 (events st) ch1 e1 = Ok m →
  get_channel api2 (CHANNEL_ID cfg) = Some ch2 →
  build_embed (SERVER_IP cfg) (servers cfg) net2 = Ok e2 →
  on_edit api2 (events st ++ [Send ch1 e1; LogInfo "Initial status message posted"])
          m e2 = Raise NotFound →
  on_send api2 (events st ++ [Send ch1 e1; LogInfo "Initial status message posted";
                              Edit m e2]) ch2 e2 = Ok m' →
  ∃ st', run_cycles cfg [(api1, net1); (api2, net2)] st = (Ok (), st') ∧
         server_message st' = Some m' ∧
         calls (new_events st st') = [Send ch1 e1; Edit m e2; Send ch2 e2].
Proof.
  intros Hnone Hch1 He1 Hsend1 Hch2 He2 Hedit Hsend2.
  rewrite !run_cycles_cons.
  rewrite (update_servers_publish _ _ _ _ _ _ Hch1 He1).
  destruct st as [current evs]. simpl in *. subst current.
  run_cmd. rewrite Hsend1. simpl.
  rewrite (update_servers_publish _ _ _ _ _ _ Hch2 He2).
  run_cmd. rewrite <- !app_assoc. simpl. rewrite Hedit. simpl.
  rewrite Hsend2. simpl. eexists. split; [reflexivity|]. split; [done|].
  unfold new_events. simpl. rewrite <- !app_assoc. simpl.
  by rewrite drop_app_length.
Qed.

Lemma recreate_after_delete_witness :
  ∃ st', run_cycles sample_config [(api_healthy, sample_net); (api_deleted, sample_net)]
           initial_state = (Ok (), st') ∧
         server_message st' = Some 43%nat ∧
         calls (new_events initial_state st')
           = [Send 7%nat sample_embed; Edit 42%nat sample_embed; Send 7%nat sample_embed].
Proof.
  assert (build_embed (SERVER_IP sample_config) (servers sample_config) sample_net
          = Ok sample_embed) as Hembed by (vm_compute; reflexivity).
  apply (recreate_after_delete sample_config api_healthy sample_net api_deleted sample_net
           initial_state 7%nat sample_embed 42%nat 7%nat sample_embed 43%nat);
    first [exact Hembed | reflexivity].
Defined.

(** ** Start-up *)

Section startup_facts.
  Variable int_of_str : string → option Z.

Lemma py_not_str_false v :
  py_not_str v = false ↔ ∃ text, v = Some text ∧ text ≠ EmptyString.
Proof.
  unfold py_not_str. destruct v as [text|].
  - destruct (String.eqb_spec text EmptyString) as [->|Hne]; split;
      try done; eauto.
    + by intros (? & [= <-] & ?).
  - split; [done|]. by intros (? & [=] & _).
Qed.

(** X14.  The module starts the bot only with a token that is set and
    not empty, a channel id that reads as an integer other than 0 and a
    host that is set and not empty; the servers it then polls are those
    of [SERVERS] on that host. *)
Theorem load_settings_started env cfg :
  load_settings int_of_str env = Started cfg ↔
  ∃ token channel_id server_ip,
    env !! "DISCORD_TOKEN" = Some token ∧ token ≠ EmptyString ∧
    (∃ text, env !! "CHANNEL_ID" = Some text ∧ int_of_str text = Some channel_id) ∧
    channel_id ≠ 0 ∧
    env !! "SERVER_IP" = Some server_ip ∧ server_ip ≠ EmptyString ∧
    cfg = {| DISCORD_TOKEN := token;
             bot_config := {| CHANNEL_ID := channel_id; SERVER_IP := server_ip;
                              servers := SERVERS server_ip |} |}.
Proof.
  unfold load_settings, py_int. split.
  - destruct (env !! "CHANNEL_ID") as [text|] eqn:Hchan; [|discriminate].
    destruct (int_of_str text) as [channel_id|] eqn:Hint; [|discriminate].
    destruct (py_not_str (env !! "DISCORD_TOKEN")) eqn:Htoken; [discriminate|].
    destruct (channel_id =? 0) eqn:Hzero; [discriminate|].
    destruct (py_not_str (env !! "SERVER_IP")) eqn:Hip; [discriminate|].
    apply py_not_str_false in Htoken as (token & Htoken & Hne).
    apply py_not_str_false in Hip as (server_ip & Hip & Hne').
    rewrite Htoken, Hip. simpl. intros [= <-].
    exists token, channel_id, server_ip. apply Z.eqb_neq in Hzero. eauto 10.
  - intros (token & channel_id & server_ip & Htoken & Hne & (text & -> & ->)
            & Hzero & Hip & Hne' & ->).
    rewrite (proj2 (py_not_str_false _)) by eauto.
    apply Z.eqb_neq in Hzero as ->.
    rewrite (proj2 (py_not_str_false _)) by eauto.
    by rewrite Htoken, Hip.
Qed.

(** X15.  A missing [CHANNEL_ID] stops the module with the [TypeError]
    of [int(None)], and a text that is no integer with [ValueError],
    whatever the other variables are: the [RuntimeError] written for
    [CHANNEL_ID] is raised only when the token is set and the channel id
    reads as 0. *)
Theorem load_settings_channel_id env :
  (env !! "CHANNEL_ID" = None → load_settings int_of_str env = Aborted IntTypeError) ∧
  (∀ text, env !! "CHANNEL_ID" = Some text → int_of_str text = None →
           load_settings int_of_str env = Aborted (IntValueError text)) ∧
  (load_settings int_of_str env
     = Aborted (RuntimeError "CHANNEL_ID environment variable not set") ↔
   (∃ token, env !! "DISCORD_TOKEN" = Some token ∧ token ≠ EmptyString) ∧
   ∃ text, env !! "CHANNEL_ID" = Some text ∧ int_of_str text = Some 0).
Proof.
  unfold load_settings, py_int. split; [by intros ->|]. split; [by intros text -> ->|].
  split.
  - destruct (env !! "CHANNEL_ID") as [text|] eqn:Hchan; [|discriminate].
    destruct (int_of_str text) as [channel_id|] eqn:Hint; [|discriminate].
    destruct (py_not_str (env !! "DISCORD_TOKEN")) eqn:Htoken; [discriminate|].
    destruct (channel_id =? 0) eqn:Hzero.
    + intros _. apply Z.eqb_eq in Hzero as ->.
      apply py_not_str_false in Htoken. eauto.
    + destruct (py_not_str (env !! "SERVER_IP")); discriminate.
  - intros [Htoken (text & -> & ->)].
    by rewrite (proj2 (py_not_str_false _)) by done.
Qed.
End startup_facts.

Lemma load_settings_started_witness :
  load_settings sample_int_of_str sample_env =
    Started {| DISCORD_TOKEN := "secret";
               bot_config := {| CHANNEL_ID := 1234; SERVER_IP := "10.0.0.1";
                                servers := SERVERS "10.0.0.1" |} |}.
Proof.
  apply (proj2 (load_settings_started sample_int_of_str sample_env _)).
  exists "secret", 1234, "10.0.0.1".
  split; [reflexivity|]. split; [discriminate|].
  split; [exists "1234"; split; reflexivity|].
  split; [lia|]. split; [reflexivity|]. split; [discriminate|reflexivity].
Defined.

Lemma load_settings_channel_id_witness :
  load_settings sample_int_of_str (delete "CHANNEL_ID" sample_env) = Aborted IntTypeError ∧
  load_settings sample_int_of_str (<["CHANNEL_ID" := "0"]> sample_env)
    = Aborted (RuntimeError "CHANNEL_ID environment variable not set").
Proof.
  split.
  - apply (proj1 (load_settings_channel_id sample_int_of_str
                    (delete "CHANNEL_ID" sample_env))).
    reflexivity.
  - apply (proj2 (proj2 (load_settings_channel_id sample_int_of_str
                           (<["CHANNEL_ID" := "0"]> sample_env)))).
    split; [exists "secret"; split; [reflexivity|discriminate]|].
    exists "0". split; reflexivity.
Defined.

(** ** Where the entries come from *)

Lemma in_concat_fields {A} (x : A) (ls : list (list A)) :
  x ∈ concat ls → ∃ l, x ∈ l ∧ l ∈ ls.
Proof.
  induction ls as [|l ls IH]; simpl; [by intros ?%elem_of_nil|].
  intros [Hx|Hx]%elem_of_app.
  - exists l. split; [done|by left].
  - destruct (IH Hx) as (l' & Hl' & Hin). exists l'. split; [done|by right].
Qed.

(** X16.  Every field of the document is a header, a spacer, or the
    entry of a configured server: its title ends with the configured name
    and its link is the join link of the configured address and port,
    whatever the endpoint answered. *)
Theorem entries_from_configuration ip servers net e f :
  build_embed ip servers net = Ok e →
  f ∈ embed_fields e →
  f = spacing_field ∨ (∃ cat totals, f = header_field cat totals) ∨
  ∃ s i, s ∈ servers ∧ get_server_info net s = Ok i ∧ f = entry_of i ∧
         info_name i = name s ∧ join_url i = configured_link s.
Proof.
  intros Hrun Hf. destruct (server_infos_total net servers) as [infos Hinfos].
  destruct (build_embed_document _ _ _ _ _ Hinfos Hrun) as (snap & _ & Hfields & _).
  rewrite Hfields in Hf. apply in_concat_fields in Hf as (fs & Hf & Hfs).
  apply list_elem_of_fmap in Hfs as (cat & -> & _). unfold section_of in Hf.
  apply elem_of_cons in Hf as [->|Hf]; [right; left; eauto|].
  apply elem_of_app in Hf as [Hf|Hf]; [|left; by apply list_elem_of_singleton in Hf].
  right. right. apply list_elem_of_fmap in Hf as (i & -> & [_ Hi]%list_elem_of_filter).
  apply mapM_Ok in Hinfos. apply list_elem_of_lookup in Hi as [k Hk].
  destruct (Forall2_lookup_r _ _ _ _ _ Hinfos Hk) as (s & Hs & Hprobe).
  exists s, i. split; [apply list_elem_of_lookup; eauto|]. split; [done|]. split; [done|].
  destruct (get_server_info_descriptor _ _ _ Hprobe) as (Hname & _ & Hip & Hport).
  split; [done|]. unfold join_url, configured_link. by rewrite Hip, Hport.
Qed.

Lemma entries_from_configuration_witness :
  ∃ s i, s ∈ sample_servers ∧ get_server_info sample_net s = Ok i ∧
         sample_entry "🔴" "Race#5" "Offline" "0/0" 8085 = entry_of i ∧
         join_url i = configured_link s.
Proof.
  destruct (entries_from_configuration "10.0.0.1" sample_servers sample_net sample_embed
              (sample_entry "🔴" "Race#5" "Offline" "0/0" 8085))
    as [Hspace|[(cat & totals & Hhead)|(s & i & Hs & Hi & Hf & _ & Hlink)]].
  - vm_compute. reflexivity.
  - unfold sample_embed. simpl. do 8 right. left.
  - discriminate Hspace.
  - exfalso. apply (f_equal field_value) in Hhead.
    vm_compute in Hhead. discriminate Hhead.
  - exists s, i. split; [exact Hs|]. split; [exact Hi|]. split; [exact Hf|exact Hlink].
Defined.

(** ** What a cycle logs *)

(** X17.  A cycle that returns logs exactly one line, and a cycle that
    ends with an error logs nothing: [update_servers] itself leaves no
    trace of an error it lets through. *)
Theorem log_lines_per_cycle cfg api net st r st' :
  update_servers cfg api net st = (r, st') →
  (r = Ok () → length (log_lines (new_events st st')) = 1%nat) ∧
  (∀ err, r = Raise err → log_lines (new_events st st') = []).
Proof.
  intros Hrun. pose proof (update_servers_cycle cfg api net st) as Hcycle.
  rewrite Hrun in Hcycle. unfold new_events.
  inversion Hcycle as [Hch|ch err Hch He|ch e m Hch He Hfirst|ch e m Hch He Hfirst Hsend
                       |ch e err Hch He Hfirst Hsend|ch e err Hch He Hfirst Hne];
    subst; simpl; rewrite ?drop_app_length, ?drop_all; unfold log_lines; simpl;
    rewrite ?is_call_first_call; simpl; split; done.
Qed.

Lemma log_lines_per_cycle_witness :
  log_lines (new_events {| server_message := Some 42%nat; events := [] |}
               (snd (update_servers sample_config api_forbidden sample_net
                       {| server_message := Some 42%nat; events := [] |}))) = [].
Proof.
  destruct (update_servers sample_config api_forbidden sample_net
              {| server_message := Some 42%nat; events := [] |}) as [r st'] eqn:Hrun.
  apply (proj2 (log_lines_per_cycle sample_config api_forbidden sample_net _ r st' Hrun)
           (OtherError "Forbidden")).
  vm_compute in Hrun. by injection Hrun as <- _.
Defined.

(** ** Counts of either kind *)

(** *** The loop over whole counts is [aggregate] *)

Lemma lift_lower s : whole s → lift_info (lower_status s) = s.
Proof.
  intros [v Hv]. destruct s as [nm cat mp ratio c address prt]. simpl in Hv.
  by subst c.
Qed.

Lemma lower_lift i : lower_status (lift_info i) = i.
Proof. by destruct i. Qed.

Lemma whole_lift l : Forall whole l → lift_info <$> (lower_status <$> l) = l.
Proof.
  induction 1 as [|s l Hs _ IH]; [done|].
  by rewrite !fmap_cons, IH, lift_lower.
Qed.

Lemma whole_players_lift i : whole_players (lift_info i) = players i.
Proof. unfold whole_players. by rewrite lower_lift. Qed.

Lemma online_whole_cons s l :
  online_whole (s :: l)
  = (if 0 <? whole_players s then whole_players s else 0) + online_whole l.
Proof.
  unfold online_whole. rewrite filter_cons.
  destruct (decide (0 < whole_players s)) as [Hpos|Hneg].
  - apply Z.ltb_lt in Hpos as ->. done.
  - apply Z.ltb_nlt in Hneg as ->. done.
Qed.

Lemma online_whole_lift l : online_whole (lift_info <$> l) = online_players l.
Proof.
  induction l as [|i l IH]; [done|].
  by rewrite fmap_cons, online_whole_cons, online_players_cons, whole_players_lift, IH.
Qed.

Lemma num_group_of_lift snap cat :
  num_group_of (lift_snapshot snap) cat = lift_info <$> group_of snap cat.
Proof.
  unfold num_group_of, group_of, lift_snapshot. simpl. rewrite lookup_fmap.
  by destruct (grouped snap !! cat).
Qed.

Lemma num_total_of_lift snap cat :
  num_total_of (lift_snapshot snap) cat = NInt (total_of snap cat).
Proof.
  unfold num_total_of, total_of, lift_snapshot. simpl. rewrite lookup_fmap.
  by destruct (category_totals snap !! cat).
Qed.

Lemma lift_empty_snapshot : lift_snapshot empty_snapshot = empty_num_snapshot.
Proof.
  unfold lift_snapshot, empty_snapshot, empty_num_snapshot, CATEGORY_ORDER. simpl.
  rewrite !fmap_insert, !fmap_empty. reflexivity.
Qed.

Lemma aggregate_step_num_lift acc i :
  aggregate_step_num (lift_snapshot acc) (lift_info i)
  = aggregate_step acc i ≫= λ acc', Ok (lift_snapshot acc').
Proof.
  unfold aggregate_step_num, aggregate_step, py_index, lift_snapshot. simpl.
  rewrite !lookup_fmap.
  destruct (py_num (info_num_players i)) as [n|e]; simpl; [|done].
  destruct (0 <? n); simpl.
  - destruct (category_totals acc !! info_category i) as [t|]; simpl; [|done].
    rewrite !fmap_insert. by destruct (grouped acc !! info_category i); simpl; rewrite ?fmap_app.
  - rewrite !fmap_insert. by destruct (grouped acc !! info_category i); simpl; rewrite ?fmap_app.
Qed.

Lemma aggregate_from_num_lift acc l :
  foldM aggregate_step_num (lift_snapshot acc) (lift_info <$> l)
  = foldM aggregate_step acc l ≫= λ snap, Ok (lift_snapshot snap).
Proof.
  revert acc. induction l as [|i l IH]; intros acc; [done|].
  rewrite fmap_cons. simpl. rewrite aggregate_step_num_lift.
  destruct (aggregate_step acc i) as [acc'|e]; simpl; [apply IH|done].
Qed.

Lemma aggregate_num_lift infos :
  aggregate_num (lift_info <$> infos)
  = aggregate infos ≫= λ snap, Ok (lift_snapshot snap).
Proof.
  unfold aggregate_num, aggregate. rewrite <- lift_empty_snapshot.
  apply aggregate_from_num_lift.
Qed.

(** On statuses none of which has a [float] for its count, the loop
    returns what [aggregate] returns. *)
Lemma aggregate_num_whole l snap :
  Forall whole l → aggregate_num l = Ok snap →
  ∃ snap0, aggregate (lower_status <$> l) = Ok snap0 ∧ snap = lift_snapshot snap0.
Proof.
  intros Hwhole Hrun. rewrite <- (whole_lift l Hwhole), aggregate_num_lift in Hrun.
  apply bind_Ok in Hrun as (snap0 & Hsnap0 & [= <-]). eauto.
Qed.

Lemma sum_nums_from_whole a zs :
  foldM num_add (NInt a) (NInt <$> zs) = Ok (NInt (a + sumZ zs)).
Proof.
  revert a. induction zs as [|z zs IH]; intros a.
  - simpl. f_equal. f_equal. unfold sumZ. simpl. lia.
  - rewrite fmap_cons, sumZ_cons. simpl. rewrite IH. f_equal. f_equal. lia.
Qed.

Lemma sum_nums_whole zs : sum_nums (NInt <$> zs) = Ok (NInt (sumZ zs)).
Proof. unfold sum_nums. by rewrite sum_nums_from_whole. Qed.

(** A count that is not above 0 changes no total, whatever the totals
    are. *)
Lemma aggregate_step_num_not_counted acc i n :
  status_num_players i = CVal (PInt n) → n ≤ 0 →
  ∃ acc', aggregate_step_num acc i = Ok acc' ∧
          num_category_totals acc' = num_category_totals acc ∧
          num_total_players acc' = num_total_players acc.
Proof.
  intros Hn Hle. unfold aggregate_step_num. rewrite Hn. simpl.
  apply Z.ltb_ge in Hle as ->. eauto.
Qed.

(** C3.  In every snapshot the loop returns from statuses none of which
    has a [float] for its count, each category total is the sum of the
    counts of that category's members whose count is above 0, the totals
    are kept for exactly the fixed categories, and the grand total is the
    sum of the category totals; a status whose count is 0 or -1 changes
    no total, of either kind. *)
Theorem totals_invariant l snap :
  Forall whole l →
  aggregate_num l = Ok snap →
  (∀ cat, num_total_of snap cat = NInt (online_whole (num_group_of snap cat))) ∧
  dom (num_category_totals snap) = list_to_set CATEGORY_ORDER ∧
  sum_nums (num_total_of snap <$> CATEGORY_ORDER) = Ok (num_total_players snap) ∧
  (∀ acc i, status_num_players i = CVal (PInt 0) ∨ status_num_players i = CVal (PInt (-1)) →
     ∃ acc', aggregate_step_num acc i = Ok acc' ∧
             num_category_totals acc' = num_category_totals acc ∧
             num_total_players acc' = num_total_players acc).
Proof.
  intros Hwhole Hrun.
  destruct (aggregate_num_whole l snap Hwhole Hrun) as (snap0 & Hsnap0 & ->).
  apply aggregate_Ok in Hsnap0 as (Hnum & Hgroup & Hdom & Htotals & Htotal & Hkeys).
  split; [|split; [|split]].
  - intros cat.
    by rewrite num_total_of_lift, num_group_of_lift, online_whole_lift, Htotals, Hgroup.
  - unfold lift_snapshot. simpl. by rewrite dom_fmap_L.
  - assert (num_total_of (lift_snapshot snap0) <$> CATEGORY_ORDER
            = NInt <$> (total_of snap0 <$> CATEGORY_ORDER)) as ->.
    { rewrite <- list_fmap_compose. apply list_fmap_ext. intros _ cat _.
      apply num_total_of_lift. }
    rewrite sum_nums_whole.
    change (num_total_players (lift_snapshot snap0)) with (NInt (total_players snap0)).
    f_equal. f_equal.
    rewrite Htotal, (online_players_by_category CATEGORY_ORDER)
      by auto using CATEGORY_ORDER_NoDup.
    f_equal. apply list_fmap_ext. intros _ cat _. by rewrite Htotals.
  - intros acc i [Hi|Hi].
    + by apply (aggregate_step_num_not_counted acc i 0).
    + by apply (aggregate_step_num_not_counted acc i (-1)).
Qed.

Lemma totals_invariant_witness :
  aggregate_num (lift_info <$> sample_infos) = Ok (lift_snapshot sample_snapshot) ∧
  num_total_of (lift_snapshot sample_snapshot) "Drift"
    = NInt (online_whole (num_group_of (lift_snapshot sample_snapshot) "Drift")) ∧
  sum_nums (num_total_of (lift_snapshot sample_snapshot) <$> CATEGORY_ORDER) = Ok (NInt 8).
Proof.
  assert (aggregate_num (lift_info <$> sample_infos) = Ok (lift_snapshot sample_snapshot))
    as Hrun by (vm_compute; reflexivity).
  assert (Forall whole (lift_info <$> sample_infos)) as Hwhole
    by (repeat constructor; eexists; reflexivity).
  split; [exact Hrun|].
  destruct (totals_invariant (lift_info <$> sample_infos) (lift_snapshot sample_snapshot)
              Hwhole Hrun) as (Htotals & _ & Htotal & _).
  split; [apply Htotals | exact Htotal].
Defined.

(** With counts 0.1, 0.2 and 0.3 the grand total is 0.6000000000000001
    and the category totals, 0.5, 0 and 0.1, add up to 0.6. *)
Lemma totals_invariant_counterexample :
  aggregate_num tenths = Ok tenths_snapshot ∧
  num_total_players tenths_snapshot = NFloat 0x1.3333333333334p-1 ∧
  sum_nums (num_total_of tenths_snapshot <$> CATEGORY_ORDER)
    = Ok (NFloat 0x1.3333333333333p-1) ∧
  sum_nums (num_total_of tenths_snapshot <$> CATEGORY_ORDER)
    ≠ Ok (num_total_players tenths_snapshot).
Proof.
  split; [vm_compute; reflexivity|]. split; [reflexivity|].
  assert (sum_nums (num_total_of tenths_snapshot <$> CATEGORY_ORDER)
          = Ok (NFloat 0x1.3333333333333p-1)) as Hsum by (vm_compute; reflexivity).
  split; [exact Hsum|]. rewrite Hsum. intros Heq.
  apply (f_equal (λ r, match r with
                       | Ok n => num_eqb (NFloat 0x1.3333333333333p-1) n
                       | Raise _ => false
                       end)) in Heq.
  vm_compute in Heq. discriminate Heq.
Qed.

(** *** Bounds and order *)

(** X5.  For statuses none of which has a [float] for its count, no
    total is ever negative, although unreachable servers carry the count
    -1, and no category total exceeds the grand total; all of them are
    [int]s. *)
Theorem totals_bounds l snap :
  Forall whole l →
  aggregate_num l = Ok snap →
  ∃ total, num_total_players snap = NInt total ∧ 0 ≤ total ∧
           ∀ cat, ∃ t, num_total_of snap cat = NInt t ∧ 0 ≤ t ≤ total.
Proof.
  intros Hwhole Hrun.
  destruct (aggregate_num_whole l snap Hwhole Hrun) as (snap0 & Hsnap0 & ->).
  exists (total_players snap0). split; [done|].
  pose proof (total_of_range _ snap0 "Drift" Hsnap0) as Hrange.
  split; [lia|]. intros cat. exists (total_of snap0 cat).
  split; [apply num_total_of_lift|by eapply total_of_range].
Qed.

Lemma totals_bounds_witness :
  ∃ total, num_total_players (lift_snapshot sample_snapshot) = NInt total ∧ 0 ≤ total ∧
           ∃ t, num_total_of (lift_snapshot sample_snapshot) "Track" = NInt t ∧ 0 ≤ t ≤ total.
Proof.
  assert (aggregate_num (lift_info <$> sample_infos) = Ok (lift_snapshot sample_snapshot))
    as Hrun by (vm_compute; reflexivity).
  assert (Forall whole (lift_info <$> sample_infos)) as Hwhole
    by (repeat constructor; eexists; reflexivity).
  destruct (totals_bounds (lift_info <$> sample_infos) (lift_snapshot sample_snapshot)
              Hwhole Hrun) as (total & Htotal & Hpos & Hcats).
  exists total. split; [exact Htotal|]. split; [exact Hpos|apply Hcats].
Defined.

(** With a count 0.5 and a count 2^53 + 1 the total of the second
    category, an [int], is 2^53 + 1, and the grand total, a [float], is
    2^53. *)
Lemma totals_bounds_float :
  aggregate_num half_and_large = Ok half_and_large_snapshot ∧
  num_total_of half_and_large_snapshot "Track" = NInt (2 ^ 53 + 1) ∧
  num_total_players half_and_large_snapshot = NFloat 9007199254740992 ∧
  float_of_int (2 ^ 53) = Ok 9007199254740992%float.
Proof. repeat split; vm_compute; reflexivity. Qed.

(** X6.  For statuses none of which has a [float] for its count, the
    totals do not depend on the order of the servers: for the statuses
    taken in any other order the loop returns as well, with the same
    category totals and grand total, and each group holds the same
    statuses. *)
Theorem totals_order_independent l l' snap :
  Forall whole l →
  aggregate_num l = Ok snap → l ≡ₚ l' →
  ∃ snap', aggregate_num l' = Ok snap' ∧
           num_category_totals snap' = num_category_totals snap ∧
           num_total_players snap' = num_total_players snap ∧
           ∀ cat, num_group_of snap' cat ≡ₚ num_group_of snap cat.
Proof.
  intros Hwhole Hrun Hperm.
  assert (Forall whole l') as Hwhole' by by rewrite <- Hperm.
  destruct (aggregate_num_whole l snap Hwhole Hrun) as (snap0 & Hsnap0 & ->).
  destruct (aggregate_perm (lower_status <$> l) (lower_status <$> l') snap0 Hsnap0)
    as (snap0' & Hsnap0' & Htotals & Htotal & Hgroups).
  { by apply fmap_Permutation. }
  exists (lift_snapshot snap0'). split; [|split; [|split]].
  - rewrite <- (whole_lift l' Hwhole'), aggregate_num_lift, Hsnap0'. done.
  - unfold lift_snapshot. simpl. by rewrite Htotals.
  - unfold lift_snapshot. simpl. by rewrite Htotal.
  - intros cat. rewrite !num_group_of_lift. apply fmap_Permutation, Hgroups.
Qed.

Lemma totals_order_independent_witness :
  ∃ snap', aggregate_num (reverse (lift_info <$> sample_infos)) = Ok snap' ∧
           num_category_totals snap' = num_category_totals (lift_snapshot sample_snapshot) ∧
           num_total_players snap' = NInt 8.
Proof.
  assert (aggregate_num (lift_info <$> sample_infos) = Ok (lift_snapshot sample_snapshot))
    as Hrun by (vm_compute; reflexivity).
  assert (Forall whole (lift_info <$> sample_infos)) as Hwhole
    by (repeat constructor; eexists; reflexivity).
  destruct (totals_order_independent (lift_info <$> sample_infos)
              (reverse (lift_info <$> sample_infos)) (lift_snapshot sample_snapshot)
              Hwhole Hrun) as (snap' & Hrun' & Htotals & Htotal & _).
  - symmetry. apply reverse_Permutation.
  - exists snap'. split; [exact Hrun'|]. split; [exact Htotals|exact Htotal].
Defined.

(** With counts 1e16, 1.0 and 1.0 in one category the total is 1e16
    when the large count comes first and 1.0000000000000002e16 when it
    comes last. *)
Lemma totals_order_float :
  large_first ≡ₚ large_last ∧
  (aggregate_num large_first ≫= λ snap, Ok (num_total_players snap))
    = Ok (NFloat 10000000000000000) ∧
  (aggregate_num large_last ≫= λ snap, Ok (num_total_players snap))
    = Ok (NFloat 10000000000000002).
Proof.
  split; [apply (Permutation_cons_append [_; _])|].
  split; vm_compute; reflexivity.
Qed.
